(** * dropbox_comcut_restore: restoring the pre-cut revision of a video

    A shallow embedding of [dropbox_comcut_restore.py] and the properties of
    its revision selector, file classifier and restore loop.

    Conventions of the embedding
    - a Python [int] is a [Z]; a Python [float] is an IEEE-754 binary64 value,
      a [spec_float] at precision 53 and maximal exponent 1024;
    - a Python [str] is a [string] (its UTF-8 bytes);
    - a naive [datetime], as the remote service reports modification times,
      is a [Z], the number of microseconds since the epoch; the cutoff, which
      [datetime.fromisoformat] parses, is a [datetime] that is naive or, when
      its text carries a UTC offset, aware;
    - a call that may raise returns an [outcome];
    - [logger] calls write no state the program reads back; only the
      evaluation of their arguments, which may raise, is kept. *)

From Stdlib Require Import ZArith List String Ascii Bool Lia.
From Stdlib Require Import Floats.SpecFloat DecimalString.
From Stdlib Require Import Sorting.Sorted Sorting.Permutation.
Import ListNotations.

Local Open Scope string_scope.
Local Open Scope Z_scope.

(** ** Exceptions and outcomes *)

Inductive exn : Type :=
| ApiError (detail : string)
| IndexError
| OverflowError
| TypeError
| SystemExit (msg : string)
| OtherError (name : string).

Inductive outcome (A : Type) : Type :=
| Return (a : A)
| Raise (e : exn).

Arguments Return {A} a.
Arguments Raise {A} e.

Definition obind {A B} (o : outcome A) (k : A -> outcome B) : outcome B :=
  match o with
  | Return a => k a
  | Raise e => Raise e
  end.

Declare Scope outcome_scope.
Delimit Scope outcome_scope with outcome.
Notation "x <- o ;; k" := (obind o (fun x => k))
  (at level 61, o at next level, right associativity) : outcome_scope.

(** ** Python floats *)

Module PyFloat.

Definition prec : Z := 53.
Definition emax : Z := 1024.

Definition float := spec_float.

(** [float(n)] and the implicit conversion of an [int] operand: the nearest
    double, ties to even; an [int] beyond the range of doubles raises. *)
Definition of_int (n : Z) : outcome float :=
  match binary_normalize prec emax n 0 false with
  | S754_infinity _ => Raise OverflowError
  | f => Return f
  end.

Definition mul : float -> float -> float := SFmul prec emax.
Definition div : float -> float -> float := SFdiv prec emax.

(** [n * c] and [x / n] with an [int] operand [n]. *)
Definition int_mul (n : Z) (c : float) : outcome float :=
  match of_int n with
  | Return x => Return (mul x c)
  | Raise e => Raise e
  end.

Definition div_int (x : float) (n : Z) : outcome float :=
  match of_int n with
  | Return y => Return (div x y)
  | Raise e => Raise e
  end.

(** The literals of the program, as the doubles nearest to them. *)
Definition lit_1_07 : float := S754_finite false 4818851601286431 (-52).
Definition lit_1_1 : float := S754_finite false 4953959590107546 (-52).
Definition lit_0_8 : float := S754_finite false 7205759403792794 (-53).
Definition lit_1_8 : float := S754_finite false 8106479329266893 (-52).

(** The double nearest to the decimal [num / den], for checking a literal. *)
Definition nearest (num den : Z) : float :=
  div (binary_normalize prec emax num 0 false)
      (binary_normalize prec emax den 0 false).

(** Comparison of an [int] with a [float] is exact in Python: the integer
    is compared with the real value of the double, without rounding. *)
Definition cmp_int (z : Z) (f : float) : option comparison :=
  match f with
  | S754_nan => None
  | S754_infinity s => Some (if s then Gt else Lt)
  | S754_zero _ => Some (z ?= 0)
  | S754_finite s m e =>
      let v := if s then Zneg m else Zpos m in
      Some (if 0 <=? e then z ?= v * 2 ^ e else z * 2 ^ (- e) ?= v)
  end.

(** [z > f] and [z < f]. *)
Definition int_gt (z : Z) (f : float) : bool :=
  match cmp_int z f with Some Gt => true | _ => false end.

Definition int_lt (z : Z) (f : float) : bool :=
  match cmp_int z f with Some Lt => true | _ => false end.

(** ["{:.2f}".format(x)]: [x] rounded to two decimals, ties to even on the
    exact value of the double. *)
Definition round_half_even (num den : Z) : Z :=
  let q := num / den in
  let r := num mod den in
  match 2 * r ?= den with
  | Lt => q
  | Gt => q + 1
  | Eq => if Z.even q then q else q + 1
  end.

Definition two_digits (n : Z) : string :=
  (if n <? 10 then "0" else "") ++ NilZero.string_of_int (Z.to_int n).

Definition format_hundredths (neg : bool) (h : Z) : string :=
  (if neg then "-" else "") ++
  NilZero.string_of_int (Z.to_int (h / 100)) ++ "." ++ two_digits (h mod 100).

Definition format_2f (x : float) : string :=
  match x with
  | S754_nan => "nan"
  | S754_infinity s => if s then "-inf" else "inf"
  | S754_zero s => format_hundredths s 0
  | S754_finite s m e =>
      format_hundredths s
        (if 0 <=? e then Zpos m * 2 ^ e * 100
         else round_half_even (Zpos m * 100) (2 ^ (- e)))
  end.

End PyFloat.

(** ** Python strings and POSIX paths *)

Module PyStr.

(** [s.startswith(p)] *)
Definition startswith (s p : string) : bool := String.prefix p s.

(** [s.endswith(suffix)]: some tail of [s] is [suffix]. *)
Fixpoint endswith (s suffix : string) : bool :=
  String.eqb s suffix ||
  match s with
  | EmptyString => false
  | String _ s' => endswith s' suffix
  end.

(** [needle in hay] *)
Fixpoint contains (needle hay : string) : bool :=
  String.prefix needle hay ||
  match hay with
  | EmptyString => false
  | String _ hay' => contains needle hay'
  end.

(** [s.replace(old, new)] for a non-empty [old]: the occurrences of [old]
    are found from the left and do not overlap; [skip] counts the
    characters of a replaced occurrence that are still to be dropped. *)
Fixpoint replace_from (skip : nat) (s old new : string) : string :=
  match s with
  | EmptyString => EmptyString
  | String c s' =>
      match skip with
      | S k => replace_from k s' old new
      | O =>
          if String.prefix old s
          then new ++ replace_from (String.length old - 1) s' old new
          else String c (replace_from O s' old new)
      end
  end.

(** With an empty [old], [new] is put before every character and at the
    end. *)
Fixpoint interleave (s new : string) : string :=
  match s with
  | EmptyString => new
  | String c s' => new ++ String c (interleave s' new)
  end.

Definition replace (s old new : string) : string :=
  match old with
  | EmptyString => interleave s new
  | _ => replace_from O s old new
  end.

(** [s[:-1]] *)
Fixpoint drop_last (s : string) : string :=
  match s with
  | EmptyString => EmptyString
  | String c EmptyString => EmptyString
  | String c s' => String c (drop_last s')
  end.

Definition is_sep (c : ascii) : bool := Ascii.eqb c "/".
Definition is_dot (c : ascii) : bool := Ascii.eqb c ".".

(** [p] cut after its last ["/"]: the directory part, with that separator,
    and [os.path.basename(p)]. *)
Fixpoint dir_and_base (p : string) : string * string :=
  match p with
  | EmptyString => (EmptyString, EmptyString)
  | String c p' =>
      let (d, b) := dir_and_base p' in
      match d with
      | EmptyString =>
          if is_sep c then (String c EmptyString, b)
          else (EmptyString, String c b)
      | _ => (String c d, b)
      end
  end.

Definition basename (p : string) : string := snd (dir_and_base p).

(** The part of [s] before its last ["."], when it has one. *)
Fixpoint before_last_dot (s : string) : option string :=
  match s with
  | EmptyString => None
  | String c s' =>
      match before_last_dot s' with
      | Some r => Some (String c r)
      | None => if is_dot c then Some EmptyString else None
      end
  end.

Fixpoint leading_dots (s : string) : string * string :=
  match s with
  | String c s' =>
      if is_dot c
      then let (d, r) := leading_dots s' in (String c d, r)
      else (EmptyString, s)
  | EmptyString => (EmptyString, EmptyString)
  end.

(** [os.path.splitext(p)[0]]: the extension starts at the last dot of the
    base name, the leading dots of the base name apart. *)
Definition splitext_root (p : string) : string :=
  let (d, b) := dir_and_base p in
  let (dots, name) := leading_dots b in
  match before_last_dot name with
  | Some r => d ++ dots ++ r
  | None => p
  end.

(** [os.path.join(a, b)] *)
Definition join (a b : string) : string :=
  if startswith b "/" then b
  else if String.eqb a "" || endswith a "/" then a ++ b
  else a ++ "/" ++ b.

End PyStr.

(** ** The program *)

Definition KILOBYTES_MULT : Z := 1024.
Definition MEGABYTES_MULT : Z := 1024 * 1024.
Definition GIGABYTES_MULT : Z := 1024 * 1024 * 1024.

(** [str(n)] of an [int]. *)
Definition str_of_int (n : Z) : string := NilZero.string_of_int (Z.to_int n).

Definition bytes_to_human_str (byte_count : Z) : outcome string :=
  (if byte_count >? GIGABYTES_MULT then
     x <- PyFloat.of_int byte_count ;;
     q <- PyFloat.div_int x GIGABYTES_MULT ;;
     Return (PyFloat.format_2f q ++ "G")
   else if byte_count >? MEGABYTES_MULT then
     x <- PyFloat.of_int byte_count ;;
     q <- PyFloat.div_int x MEGABYTES_MULT ;;
     Return (PyFloat.format_2f q ++ "M")
   else if byte_count >? KILOBYTES_MULT then
     x <- PyFloat.of_int byte_count ;;
     q <- PyFloat.div_int x KILOBYTES_MULT ;;
     Return (PyFloat.format_2f q ++ "M")
   else Return (str_of_int byte_count))%outcome.

(** A revision of a remote file, as [files_list_revisions] reports it: the
    fields of [FileMetadata] the program reads. *)
Record FileMetadata : Type := {
  server_modified : Z;
  size : Z;
  rev : string
}.

(** Stable insertion sort: [before y x] says that [y] must precede [x]
    although [x] came first. *)
Fixpoint insert_sorted {A} (before : A -> A -> bool) (x : A) (l : list A) : list A :=
  match l with
  | [] => [x]
  | y :: l' => if before y x then y :: insert_sorted before x l' else x :: l
  end.

Definition stable_sort {A} (before : A -> A -> bool) (l : list A) : list A :=
  fold_right (insert_sorted before) [] l.

(** [sorted(entries, key=lambda entry: entry.server_modified, reverse=True)]:
    newest first, entries of equal time in their original order. *)
Definition sorted_newest_first (entries : list FileMetadata) : list FileMetadata :=
  stable_sort (fun y x => server_modified x <? server_modified y) entries.

(** A [datetime] as [datetime.fromisoformat] returns it: naive, the
    microseconds of its fields since the epoch; or aware, when the text
    carries a UTC offset, with the microseconds of that offset. *)
Inductive datetime : Type :=
| Naive (fields : Z)
| Aware (fields : Z) (utcoffset : Z).

(** [a < b] for a naive [a]: the order of the fields when [b] is naive
    too; an offset-naive and an offset-aware [datetime] cannot be ordered,
    and [<] raises [TypeError]. *)
Definition naive_lt (a : Z) (b : datetime) : outcome bool :=
  match b with
  | Naive t => Return (a <? t)
  | Aware _ _ => Raise TypeError
  end.

(** [no_older_than_time and rev.server_modified < no_older_than_time]: a
    [datetime] is always true, [None] is not and the comparison is then
    not evaluated; [server_modified] is a naive time. *)
Definition predates (no_older_than_time : option datetime) (r : FileMetadata)
  : outcome bool :=
  match no_older_than_time with
  | Some t => naive_lt (server_modified r) t
  | None => Return false
  end.

(** The loop [for rev in revisions[1:]] of [find_precut_revision]. The list
    [sizes] of the source only feeds the closing log line and is left out. *)
Fixpoint walk_revisions (target_size stop_size_sm stop_size_lg : PyFloat.float)
    (no_older_than_time : option datetime) (revisions : list FileMetadata)
  : outcome (option FileMetadata) :=
  match revisions with
  | [] => Return None
  | r :: older =>
      (too_old <- predates no_older_than_time r ;;
       if too_old then Return None
       else
         _ <- bytes_to_human_str (size r) ;;
         if PyFloat.int_gt (size r) stop_size_lg then Return None
         else if PyFloat.int_gt (size r) target_size then Return (Some r)
         else if PyFloat.int_lt (size r) stop_size_sm then Return None
         else walk_revisions target_size stop_size_sm stop_size_lg
                no_older_than_time older)%outcome
  end.

(** The thresholds of [find_precut_revision], from [latest_size]. *)
Definition target_size (latest_size : Z) (has_been_cut : bool)
  : outcome PyFloat.float :=
  if has_been_cut then PyFloat.int_mul latest_size PyFloat.lit_1_07
  else PyFloat.int_mul latest_size PyFloat.lit_1_1.

Definition stop_size_sm (latest_size : Z) : outcome PyFloat.float :=
  PyFloat.int_mul latest_size PyFloat.lit_0_8.

Definition stop_size_lg (latest_size : Z) : outcome PyFloat.float :=
  PyFloat.int_mul latest_size PyFloat.lit_1_8.

(** [find_precut_revision] from the entries that [files_list_revisions]
    returned. *)
Definition select_revision (entries : list FileMetadata) (has_been_cut : bool)
    (no_older_than_time : option datetime) : outcome (option FileMetadata) :=
  let revisions := sorted_newest_first entries in
  match revisions with
  | [] => Raise IndexError
  | latest :: older =>
      let latest_size := size latest in
      (_ <- bytes_to_human_str latest_size ;;
       target <- target_size latest_size has_been_cut ;;
       small <- stop_size_sm latest_size ;;
       large <- stop_size_lg latest_size ;;
       walk_revisions target small large no_older_than_time older)%outcome
  end.

Definition replace_extension (path new_extension : string) : string :=
  PyStr.splitext_root path ++ "." ++ new_extension.

Definition VIDEO_EXTENSIONS : list string := ["mkv"; "ts"; "mp4"; "mov"].

Definition is_video_file (filepath : string) : bool :=
  if PyStr.startswith (PyStr.basename filepath) "._" then false
  else
    0 <? Z.of_nat (List.length
           (filter (fun e => PyStr.endswith filepath ("." ++ e)) VIDEO_EXTENSIONS)).

(** ** The machine the program runs on *)

(** What the program asks of the local machine: [os.path.isfile],
    [os.path.exists], [os.walk] (the triples [(root, dirs, files)] in the
    order it yields them), [os.path.abspath], [open(path, 'r').read()],
    [os.getenv] and [datetime.fromisoformat]. *)
Record Host : Type := {
  isfile : string -> bool;
  exists_ : string -> bool;
  walk : string -> list (string * list string * list string);
  abspath : string -> string;
  read_text : string -> outcome string;
  getenv : string -> option string;
  fromisoformat : string -> outcome datetime
}.

Definition edl_for_video (host : Host) (filepath : string) : string :=
  let edl_path := replace_extension filepath "edl" in
  if exists_ host edl_path then edl_path
  else
    let edl_bak_path := replace_extension filepath "bak.edl" in
    if exists_ host edl_bak_path then edl_bak_path
    else edl_path.

(** The files a directory walk yields for one triple of [os.walk]. *)
Definition walked_videos (host : Host) (root : string) (files : list string)
  : list string :=
  filter
    (fun filepath =>
       negb (PyStr.startswith (PyStr.basename filepath) ".") &&
       is_video_file filepath)
    (map (fun file => abspath host (PyStr.join root file))
       (stable_sort String.ltb files)).

(** The paths [generate_files] yields for one argument. *)
Definition generate_for (host : Host) (media_path : string) : list string :=
  (if isfile host media_path then
     if is_video_file media_path then [abspath host media_path] else []
   else []) ++
  flat_map (fun '(root, dirs, files) => walked_videos host root files)
    (walk host media_path).

Definition generate_files (host : Host) (media_paths : list string) : list string :=
  flat_map (generate_for host) media_paths.

(** ** The remote service *)

(** The calls the program makes on its [dropbox.Dropbox] client. *)
Inductive call : Type :=
| ListRevisions (path : string) (limit : Z)
| Restore (path : string) (revision : string)
| DeleteV2 (path : string).

(** The client over a remote state [St]: each operation answers or raises,
    and leaves a new remote state. *)
Record Dropbox (St : Type) : Type := {
  files_list_revisions : string -> Z -> St -> St * outcome (list FileMetadata);
  files_restore : string -> string -> St -> St * outcome unit;
  files_delete_v2 : string -> St -> St * outcome unit
}.

Arguments files_list_revisions {St} _ _ _ _.
Arguments files_restore {St} _ _ _ _.
Arguments files_delete_v2 {St} _ _ _.

(** The remote state together with the calls made so far, oldest first. *)
Record World (St : Type) : Type := {
  remote : St;
  calls : list call
}.

Arguments remote {St} _.
Arguments calls {St} _.

(** Computations that call the remote service and may raise. *)
Definition M (St A : Type) : Type := World St -> World St * outcome A.

Definition ret {St A} (a : A) : M St A := fun w => (w, Return a).

Definition raise {St A} (e : exn) : M St A := fun w => (w, Raise e).

Definition lift {St A} (o : outcome A) : M St A := fun w => (w, o).

Definition bind {St A B} (m : M St A) (k : A -> M St B) : M St B :=
  fun w =>
    match m w with
    | (w', Return a) => k a w'
    | (w', Raise e) => (w', Raise e)
    end.

Declare Scope remote_scope.
Delimit Scope remote_scope with remote.
Notation "x <- m ;; k" := (bind m (fun x => k))
  (at level 61, m at next level, right associativity) : remote_scope.

(** [try: body except ApiError: handler] *)
Definition try_except_ApiError {St} (body : M St unit) (handler : string -> M St unit)
  : M St unit :=
  fun w =>
    match body w with
    | (w', Raise (ApiError detail)) => handler detail w'
    | r => r
    end.

Definition remote_call {St A} (c : call) (op : St -> St * outcome A) : M St A :=
  fun w =>
    let (s', o) := op (remote w) in
    ({| remote := s'; calls := calls w ++ [c] |}, o).

(** [for x in xs: body(x)] *)
Fixpoint for_each {St A} (xs : list A) (body : A -> M St unit) : M St unit :=
  match xs with
  | [] => ret tt
  | x :: xs' => (_ <- body x ;; for_each xs' body)%remote
  end.

Section Program.

Context {St : Type}.
Variable host : Host.
Variable dbx : Dropbox St.

Definition find_precut_revision (path : string) (has_been_cut : bool)
    (no_older_than_time : option datetime) : M St (option FileMetadata) :=
  (entries <- remote_call (ListRevisions path 30)
                (files_list_revisions dbx path 30) ;;
   lift (select_revision entries has_been_cut no_older_than_time))%remote.

(** The body of [if not dry_run:]. *)
Definition restore_and_clean (dropbox_path : string) (uncut_rev : FileMetadata)
  : M St unit :=
  let edl := replace_extension dropbox_path "edl" in
  let bak := replace_extension dropbox_path "bak.edl" in
  try_except_ApiError
    (_ <- remote_call (Restore dropbox_path (rev uncut_rev))
            (files_restore dbx dropbox_path (rev uncut_rev)) ;;
     _ <- try_except_ApiError
            (remote_call (DeleteV2 edl) (files_delete_v2 dbx edl))
            (fun _ => ret tt) ;;
     try_except_ApiError
       (remote_call (DeleteV2 bak) (files_delete_v2 dbx bak))
       (fun _ => ret tt))%remote
    (fun _ => ret tt).

(** [has_been_cut] of one video. *)
Definition read_has_been_cut (video_filepath : string) : outcome bool :=
  let edl_filepath := edl_for_video host video_filepath in
  if negb (String.eqb edl_filepath "") && isfile host edl_filepath then
    (text <- read_text host edl_filepath ;;
     Return (PyStr.contains "## cut complete" text))%outcome
  else Return false.

Definition remote_path (media_base video_filepath : string) : string :=
  PyStr.replace video_filepath media_base "/Media".

(** The body of [for video_filepath in generate_files(args):]. *)
Definition process_file (dry_run : bool) (media_base : string)
    (no_older_than_time : option datetime) (video_filepath : string) : M St unit :=
  (has_been_cut <- lift (read_has_been_cut video_filepath) ;;
   let dropbox_path := remote_path media_base video_filepath in
   uncut_rev <- find_precut_revision dropbox_path has_been_cut no_older_than_time ;;
   match uncut_rev with
   | Some r =>
       _ <- lift (bytes_to_human_str (size r)) ;;
       if dry_run then ret tt else restore_and_clean dropbox_path r
   | None => ret tt
   end)%remote.

(** The options of the command line, as the loop over [opts] sets them. *)
Record Options : Type := {
  dry_run : bool;
  media_base : option string;
  no_older_than_time : option datetime
}.

Definition initial_options : Options :=
  {| dry_run := false; media_base := None; no_older_than_time := None |}.

Definition one_of (opt : string) (names : list string) : bool :=
  existsb (String.eqb opt) names.

(** [for opt, arg in opts:]; [None] when the loop returns 255. *)
Fixpoint read_options (opts : list (string * string)) (o : Options)
  : outcome (option Options) :=
  match opts with
  | [] => Return (Some o)
  | (opt, arg) :: rest =>
      if one_of opt ["-h"; "--help"] then Return None
      else if String.eqb opt "--verbose" then read_options rest o
      else if one_of opt ["-n"; "--dry-run"] then
        read_options rest
          {| dry_run := true; media_base := media_base o;
             no_older_than_time := no_older_than_time o |}
      else if one_of opt ["-d"; "--dir"] then
        read_options rest
          {| dry_run := dry_run o;
             media_base :=
               Some (if PyStr.endswith arg "/" then PyStr.drop_last arg else arg);
             no_older_than_time := no_older_than_time o |}
      else if one_of opt ["--lt"] then
        (t <- fromisoformat host arg ;;
         read_options rest
           {| dry_run := dry_run o; media_base := media_base o;
              no_older_than_time := Some t |})%outcome
      else read_options rest o
  end.

Definition falsy (s : option string) : bool :=
  match s with
  | None => true
  | Some v => String.eqb v ""
  end.

(** [comcut_restore_cli(argv)], from the result of [getopt.getopt]
    ([None] when it raises [GetoptError]). *)
Definition comcut_restore_cli
    (parsed : option (list (string * string) * list string)) : M St Z :=
  match parsed with
  | None => ret 255
  | Some (opts, args) =>
      (r <- lift (read_options opts initial_options) ;;
       match r with
       | None => ret 255
       | Some o =>
           if (List.length args =? 0)%nat then
             raise (SystemExit "ERROR: Expected list of files or directories")
           else if falsy (media_base o) then
             raise (SystemExit "ERROR: --dir is required")
           else if falsy (getenv host "DROPBOX_ACCESS_TOKEN") then
             raise (SystemExit "ERROR: Access token required in DROPBOX_ACCESS_TOKEN")
           else
             _ <- for_each (generate_files host args)
                    (process_file (dry_run o)
                       (match media_base o with Some b => b | None => "" end)
                       (no_older_than_time o)) ;;
             ret 0
       end)%remote
  end.

End Program.

(** * The vocabulary of the properties *)

(** The sizes the float arithmetic of the selector can take: beyond the
    range of doubles [float(n)] raises. Every size the remote service
    reports, an unsigned 64-bit integer, is in this range. *)
Definition in_float_range (n : Z) : Prop := 0 <= n < 2 ^ 1021.

Definition sizes_in_range (l : list FileMetadata) : Prop :=
  Forall (fun r => in_float_range (size r)) l.

(** [a] is listed before [b] in a history that is newest first. *)
Definition not_older (a b : FileMetadata) : Prop :=
  server_modified b <= server_modified a.

(** The cutoff, when there is one, carries no UTC offset: it can be
    compared with the naive times of the remote service. *)
Definition offset_free (no_older_than_time : option datetime) : Prop :=
  match no_older_than_time with
  | Some (Aware _ _) => False
  | _ => True
  end.

(** The instant of a [datetime] in UTC, in which the remote service
    reports its naive times. *)
Definition utc_instant (d : datetime) : Z :=
  match d with
  | Naive t => t
  | Aware t utcoffset => t - utcoffset
  end.

(** None of the four tests of the loop body holds at [r]: the walk goes on
    to the next revision. *)
Definition continues (target small large : PyFloat.float)
    (no_older_than_time : option datetime) (r : FileMetadata) : Prop :=
  predates no_older_than_time r = Return false
  /\ PyFloat.int_gt (size r) large = false
  /\ PyFloat.int_gt (size r) target = false
  /\ PyFloat.int_lt (size r) small = false.

(** A positive result of rounding: finite, or an overflow to infinity. *)
Definition finite_or_inf (m : positive) (e : Z) : PyFloat.float :=
  if e <=? PyFloat.emax - PyFloat.prec then S754_finite false m e else S754_infinity false.

(** The order of the three thresholds around the size [n] they are
    computed from, as far as comparisons with integers can tell:
    [small <= n <= target <= large]. *)
Record ordered_thresholds (n : Z) (target small large : PyFloat.float) : Prop := {
  target_above : forall z, z <= n -> PyFloat.int_gt z target = false;
  target_above_strict : forall z, z < n -> PyFloat.int_lt z target = true;
  small_below : forall z, n <= z -> PyFloat.int_lt z small = false;
  small_below_strict : forall z, n < z -> PyFloat.int_gt z small = true;
  large_above_target : forall z, PyFloat.int_gt z large = true -> PyFloat.int_gt z target = true;
  large_above_target_strict :
    0 < n -> forall z, PyFloat.int_gt z target = false -> PyFloat.int_lt z large = true
}.

(** The only exception the arithmetic of the selector raises. *)
Definition raises_only_overflow {A} (o : outcome A) : Prop :=
  match o with
  | Return _ => True
  | Raise e => e = OverflowError
  end.

(** The exceptions the walk raises: that of the arithmetic, and the
    [TypeError] of a cutoff that cannot be compared. *)
Definition raises_overflow_or_type {A} (o : outcome A) : Prop :=
  match o with
  | Return _ => True
  | Raise e => e = OverflowError \/ e = TypeError
  end.

(** The final dotted extension of a path: what follows its last ["."]. *)
Fixpoint final_extension (p : string) : option string :=
match p with
| EmptyString => None
| String c p' =>
    match final_extension p' with
    | Some e => Some e
    | None => if PyStr.is_dot c then Some p' else None
    end
end.

(** The final extension of [p] is one of the recognized ones. *)
Definition recognized_extension (p : string) : Prop :=
exists e, In e VIDEO_EXTENSIONS /\ final_extension p = Some e.

Definition is_list_call (c : call) : bool :=
match c with
| ListRevisions _ _ => true
| _ => false
end.

(** The calls that change the remote files. *)
Definition is_mutation (c : call) : bool :=
match c with
| Restore _ _ | DeleteV2 _ => true
| ListRevisions _ _ => false
end.

(** An outcome that is an answer or an [ApiError]. *)
Definition answer_or_ApiError {A} (o : outcome A) : Prop :=
match o with
| Return _ => True
| Raise e => exists detail, e = ApiError detail
end.

(** Restoring and deleting fail with [ApiError] only. *)
Definition api_errors_only {St} (dbx : Dropbox St) : Prop :=
forall (s : St) (path : string),
  (forall revision, answer_or_ApiError (snd (files_restore dbx path revision s)))
  /\ answer_or_ApiError (snd (files_delete_v2 dbx path s)).

(** Listing the revisions of any path answers, with a history that is not
    empty and whose sizes are in range. *)
Definition lists_histories {St} (dbx : Dropbox St) : Prop :=
forall (s : St) (path : string),
  exists entries,
    snd (files_list_revisions dbx path 30 s) = Return entries
    /\ entries <> []
    /\ sizes_in_range entries.

(** Every file can be read. *)
Definition files_readable (host : Host) : Prop :=
forall p, isfile host p = true -> exists text, read_text host p = Return text.

(** The run reads the remote service and changes nothing there: it makes
    no call that restores or deletes, and leaves the remote state as it was
    when listing revisions does. *)
Definition reads_only {St} (dbx : Dropbox St) (w w' : World St) : Prop :=
filter is_mutation (calls w') = filter is_mutation (calls w)
/\ ((forall p l s, fst (files_list_revisions dbx p l s) = s) ->
    remote w' = remote w).

(** The options are complete and the token is set: the run reaches the
    loop over the files. *)
Definition configured (host : Host) (args : list string) (o : Options)
    (base : string) : Prop :=
args <> []
/\ media_base o = Some base
/\ base <> ""%string
/\ falsy (getenv host "DROPBOX_ACCESS_TOKEN") = false.

(** [x] may stand before [y] in a list sorted by [before]: [y] need not
    precede [x]. *)
Definition may_precede {A} (before : A -> A -> bool) (x y : A) : Prop :=
before y x = false.

(** The character [c] occurs in [s]. *)
Fixpoint has_char (c : ascii) (s : string) : bool :=
match s with
| EmptyString => false
| String a s' => Ascii.eqb a c || has_char c s'
end.

(** [s] is made of dots only; the empty string is. *)
Fixpoint only_dots (s : string) : bool :=
match s with
| EmptyString => true
| String c s' => PyStr.is_dot c && only_dots s'
end.

(** The arguments of the options of [opts] whose name is one of [names],
    in the order of the command line. *)
Definition option_args (names : list string) (opts : list (string * string))
  : list string :=
map snd (filter (fun oa => one_of (fst oa) names) opts).

(** ** Examples *)

(** A revision with modification time [t] and size [s], for examples. *)
Definition revision (t s : Z) : FileMetadata :=
  {| server_modified := t; size := s; rev := str_of_int t |}.

(** A machine for the examples: a directory [/videos] with six files, a
    marker file for [/videos/b.mkv], and a token in the environment. It
    parses one cutoff, 2 microseconds into the epoch, written without and
    with a UTC offset. *)
Definition example_host : Host :=
{| isfile := fun p =>
     existsb (String.eqb p)
       ["/videos/.trailer.mkv"; "/videos/b.mkv"; "/videos/a.ts";
        "/videos/._a.ts"; "/videos/notes.txt"; "/videos/c.TS";
        "/videos/b.edl"];
   exists_ := fun p =>
     existsb (String.eqb p)
       ["/videos"; "/videos/.trailer.mkv"; "/videos/b.mkv"; "/videos/a.ts";
        "/videos/._a.ts"; "/videos/notes.txt"; "/videos/c.TS";
        "/videos/b.edl"];
   walk := fun p =>
     if String.eqb p "/videos" then
       [("/videos", [],
         ["b.mkv"; "b.edl"; ".trailer.mkv"; "a.ts"; "._a.ts"; "notes.txt"; "c.TS"])]
     else [];
   abspath := fun p => p;
   read_text := fun p =>
     if String.eqb p "/videos/b.edl" then Return "## cut complete"
     else if String.eqb p "/videos/missing" then Raise (OtherError "FileNotFoundError")
     else Return "";
   getenv := fun v =>
     if String.eqb v "DROPBOX_ACCESS_TOKEN" then Some "token" else None;
   fromisoformat := fun text =>
     if String.eqb text "1970-01-01T00:00:00.000002" then Return (Naive 2)
     else if String.eqb text "1970-01-01T00:00:00.000002+00:00" then
       Return (Aware 2 0)
     else Raise (OtherError "ValueError") |}.

(** A remote service for the examples. Its state is the list of the paths
    restored so far. The history of a path does not depend on the state.
    Restoring [/Media/a.ts] fails, and so does deleting a [.bak.edl]
    file. *)
Definition example_history (path : string) : list FileMetadata :=
if String.eqb path "/Media/b.mkv" then
  [revision 3 1000; revision 2 1080; revision 1 1150]
else if String.eqb path "/Media/a.ts" then
  [revision 1 1200; revision 2 1000]
else [revision 1 500].

Definition example_dbx : Dropbox (list string) :=
{| files_list_revisions := fun path _ s => (s, Return (example_history path));
   files_restore := fun path _ s =>
     if String.eqb path "/Media/a.ts" then (s, Raise (ApiError "restore"))
     else (path :: s, Return tt);
   files_delete_v2 := fun path s =>
     if PyStr.endswith path ".bak.edl" then (s, Raise (ApiError "not_found"))
     else (s, Return tt) |}.

Definition example_world : World (list string) :=
{| remote := []; calls := [] |}.

(** A remote service on which nothing can be listed: listing fails with
    [ApiError], as for a path the service does not have, and restoring and
    deleting fail for want of a connection. *)
Definition unreachable_dbx : Dropbox unit :=
{| files_list_revisions := fun _ _ s => (s, Raise (ApiError "path/not_found"));
   files_restore := fun _ _ s => (s, Raise (OtherError "ConnectionError"));
   files_delete_v2 := fun _ s => (s, Raise (OtherError "ConnectionError")) |}.

(** * Properties *)

(** ** Checks of the embedding *)

(** The literals are the doubles nearest to their decimals. *)
Example literals_are_nearest :
  PyFloat.nearest 107 100 = PyFloat.lit_1_07
  /\ PyFloat.nearest 11 10 = PyFloat.lit_1_1
  /\ PyFloat.nearest 8 10 = PyFloat.lit_0_8
  /\ PyFloat.nearest 18 10 = PyFloat.lit_1_8.
Proof. repeat split; vm_compute; reflexivity. Qed.

(** Conversions and comparisons at the edges: [float(n)] raises from
    [2^1024 - 2^970] on; an [int] is compared with the exact value of a
    double. *)
Example int_float_examples :
  PyFloat.of_int (2 ^ 1024 - 2 ^ 970) = Raise OverflowError
  /\ PyFloat.of_int (2 ^ 1024 - 2 ^ 970 - 1)
     = Return (S754_finite false 9007199254740991 971)
  /\ PyFloat.of_int (2 ^ 53 + 1) = Return (S754_finite false 4503599627370496 1)
  /\ PyFloat.cmp_int (2 ^ 53 + 1) (S754_finite false 4503599627370496 1) = Some Gt
  /\ PyFloat.int_mul 1000 PyFloat.lit_1_8 = PyFloat.of_int 1800
  /\ PyFloat.int_mul 1000 PyFloat.lit_1_07 = PyFloat.of_int 1070
  /\ PyFloat.int_mul 1000 PyFloat.lit_1_1 = PyFloat.of_int 1100
  /\ PyFloat.int_mul 1000 PyFloat.lit_0_8 = PyFloat.of_int 800.
Proof. repeat split; vm_compute; reflexivity. Qed.

Example bytes_to_human_str_examples :
  bytes_to_human_str 12 = Return "12"
  /\ bytes_to_human_str 1024 = Return "1024"
  /\ bytes_to_human_str 1536 = Return "1.50M"
  /\ bytes_to_human_str 123456789 = Return "117.74M"
  /\ bytes_to_human_str (5 * 2 ^ 30 + 2 ^ 29) = Return "5.50G"
  /\ bytes_to_human_str (2 ^ 1024) = Raise OverflowError.
Proof. repeat split; vm_compute; reflexivity. Qed.

(** The histories of the specification's examples, newest first. *)
Example selector_examples :
  select_revision [revision 3 1000; revision 2 1150; revision 1 900] false None
  = Return (Some (revision 2 1150))
  /\ select_revision [revision 2 1000; revision 1 1900] false None = Return None
  /\ select_revision [revision 2 1000; revision 1 750] false None = Return None
  /\ select_revision [revision 3 1000; revision 2 1080; revision 1 1150] true None
     = Return (Some (revision 2 1080))
  /\ select_revision [revision 3 1000; revision 2 1080; revision 1 1150] false None
     = Return (Some (revision 1 1150))
  /\ select_revision [revision 1 1150; revision 3 1000; revision 2 1080] true None
     = Return (Some (revision 2 1080))
  /\ select_revision [revision 2 1000; revision 1 (2 ^ 1024)] false None
     = Raise OverflowError.
Proof. repeat split; vm_compute; reflexivity. Qed.

(** The cutoff: a revision modified at the cutoff is not older than it;
    one modified before it ends the walk; a cutoff with a UTC offset
    cannot be compared, unless there is no revision to compare it with. *)
Example cutoff_examples :
  select_revision [revision 3 1000; revision 2 1150] false (Some (Naive 2))
  = Return (Some (revision 2 1150))
  /\ select_revision [revision 3 1000; revision 2 1150] false (Some (Naive 3))
     = Return None
  /\ select_revision [revision 3 1000; revision 2 1150] false (Some (Aware 2 0))
     = Raise TypeError
  /\ select_revision [revision 3 1000] false (Some (Aware 2 0)) = Return None
  /\ read_options example_host
       [("--lt", "1970-01-01T00:00:00.000002"); ("-d", "/videos")]
       initial_options
     = Return (Some {| dry_run := false; media_base := Some "/videos";
                       no_older_than_time := Some (Naive 2) |})
  /\ read_options example_host [("--lt", "yesterday"); ("-d", "/videos")]
       initial_options
     = Raise (OtherError "ValueError")
  /\ comcut_restore_cli example_host example_dbx
       (Some ([("--lt", "1970-01-01T00:00:00.000002"); ("-d", "/videos")],
              ["/videos/a.ts"]))
       example_world
     = ({| remote := []; calls := [ListRevisions "/Media/a.ts" 30] |}, Return 0).
Proof. repeat split; vm_compute; reflexivity. Qed.

Example path_examples :
  PyStr.splitext_root "/a.b/c.d.mkv" = "/a.b/c.d"
  /\ PyStr.splitext_root "/a.b/.hidden" = "/a.b/.hidden"
  /\ PyStr.splitext_root "/a.b/..x.y" = "/a.b/..x"
  /\ PyStr.splitext_root "a.b/c" = "a.b/c"
  /\ replace_extension "/Media/tv/a.mkv" "bak.edl" = "/Media/tv/a.bak.edl"
  /\ PyStr.basename "/a/b/.c.mkv" = ".c.mkv"
  /\ PyStr.basename "abc/" = ""
  /\ PyStr.join "/a" "b" = "/a/b"
  /\ PyStr.join "/a/" "b" = "/a/b"
  /\ PyStr.join "/a" "/b" = "/b"
  /\ PyStr.replace "aaa" "aa" "b" = "ba"
  /\ PyStr.replace "abc" "" "-" = "-a-b-c-"
  /\ PyStr.drop_last "/videos/" = "/videos".
Proof. repeat split; reflexivity. Qed.

Example is_video_file_examples :
  map is_video_file
    ["/a/b.mkv"; "/a/._b.mkv"; "/a/.b.mkv"; "/a/b.TS"; "/a/b.ts"; "/a/bts";
     "b.mov"; "/a.mkv/b"; "/a/b.mp4.txt"]
  = [true; false; true; false; true; false; true; false; false].
Proof. reflexivity. Qed.

(** A run over the example machine and service: the restore of
    [/Media/a.ts] fails and the loop goes on; [/videos/b.mkv] is marked as
    cut, its revision of size 1080 is restored, and both deletions are
    attempted although the second fails. *)
Example run_example :
  generate_files example_host ["/videos"] = ["/videos/a.ts"; "/videos/b.mkv"]
  /\ comcut_restore_cli example_host example_dbx
       (Some ([("-d", "/videos/")], ["/videos"])) example_world
     = ({| remote := ["/Media/b.mkv"];
           calls := [ListRevisions "/Media/a.ts" 30;
                     Restore "/Media/a.ts" "1";
                     ListRevisions "/Media/b.mkv" 30;
                     Restore "/Media/b.mkv" "2";
                     DeleteV2 "/Media/b.edl";
                     DeleteV2 "/Media/b.bak.edl"] |},
        Return 0)
  /\ comcut_restore_cli example_host example_dbx
       (Some ([("-d", "/videos/")], [])) example_world
     = (example_world, Raise (SystemExit "ERROR: Expected list of files or directories"))
  /\ comcut_restore_cli example_host example_dbx
       (Some ([("-h", ""); ("-d", "/videos/")], ["/videos"])) example_world
     = (example_world, Return 255).
Proof. repeat split; vm_compute; reflexivity. Qed.


(** ** Rounding to a double *)

Module FloatFacts.

Import PyFloat.

Lemma digits2_pos_bounds (p : positive) :
  2 ^ (Zpos (digits2_pos p) - 1) <= Zpos p < 2 ^ Zpos (digits2_pos p).
Proof.
  induction p as [p IH | p IH |]; cbn [digits2_pos].
  - rewrite Pos2Z.inj_succ, Z.pow_succ_r by lia.
    replace (Z.succ (Zpos (digits2_pos p)) - 1)
      with (Z.succ (Zpos (digits2_pos p) - 1)) by lia.
    rewrite Z.pow_succ_r by lia. lia.
  - rewrite Pos2Z.inj_succ, Z.pow_succ_r by lia.
    replace (Z.succ (Zpos (digits2_pos p)) - 1)
      with (Z.succ (Zpos (digits2_pos p) - 1)) by lia.
    rewrite Z.pow_succ_r by lia. lia.
  - cbn. lia.
Qed.

Lemma digits2_pos_unique (p : positive) (d : Z) :
  2 ^ (d - 1) <= Zpos p < 2 ^ d -> Zpos (digits2_pos p) = d.
Proof.
  intros [Hlo Hhi].
  destruct (digits2_pos_bounds p) as [Glo Ghi].
  assert (0 <= d).
  { destruct (Z.le_gt_cases 0 d) as [|Hneg]; [assumption|].
    rewrite (Z.pow_neg_r 2 d Hneg) in Hhi. lia. }
  destruct (Z.lt_trichotomy (Zpos (digits2_pos p)) d) as [Hlt | [Heq | Hgt]].
  - assert (2 ^ Zpos (digits2_pos p) <= 2 ^ (d - 1))
      by (apply Z.pow_le_mono_r; lia).
    lia.
  - exact Heq.
  - assert (2 ^ d <= 2 ^ (Zpos (digits2_pos p) - 1))
      by (apply Z.pow_le_mono_r; lia).
    lia.
Qed.

Lemma shr_1_m (r : shr_record) :
  0 <= shr_m r -> shr_m (shr_1 r) = shr_m r / 2.
Proof.
  destruct r as [m r s]; cbn [shr_m].
  destruct m as [| [p | p |] | p]; cbn [shr_1 shr_m]; intros Hm.
  - reflexivity.
  - rewrite (Pos2Z.inj_xI p). apply Z.div_unique with (r := 1); lia.
  - rewrite (Pos2Z.inj_xO p). apply Z.div_unique with (r := 0); lia.
  - reflexivity.
  - lia.
Qed.

Lemma iter_shr_1_m (p : positive) :
  forall r, 0 <= shr_m r ->
    shr_m (iter_pos shr_1 p r) = shr_m r / 2 ^ Zpos p.
Proof.
  assert (Hpos : forall q, 0 < 2 ^ Zpos q) by (intro; apply Z.pow_pos_nonneg; lia).
  induction p as [p IH | p IH |]; intros r Hr; cbn [iter_pos].
  - assert (H1 : 0 <= shr_m (shr_1 r)).
    { rewrite shr_1_m by assumption. apply Z.div_pos; lia. }
    assert (H2 : 0 <= shr_m (iter_pos shr_1 p (shr_1 r))).
    { rewrite IH by assumption. apply Z.div_pos; [assumption | apply Hpos]. }
    rewrite IH, IH, shr_1_m by assumption.
    specialize (Hpos p).
    rewrite !Z.div_div by lia.
    f_equal. rewrite (Pos2Z.inj_xI p).
    replace (2 * Zpos p + 1) with (1 + Zpos p + Zpos p) by lia.
    rewrite (Z.pow_add_r 2 (1 + Zpos p) (Zpos p)) by lia.
    rewrite (Z.pow_add_r 2 1 (Zpos p)) by lia.
    rewrite Z.pow_1_r. ring.
  - assert (H2 : 0 <= shr_m (iter_pos shr_1 p r)).
    { rewrite IH by assumption. apply Z.div_pos; [assumption | apply Hpos]. }
    rewrite IH, IH by assumption.
    specialize (Hpos p).
    rewrite !Z.div_div by lia.
    f_equal. rewrite (Pos2Z.inj_xO p).
    replace (2 * Zpos p) with (Zpos p + Zpos p) by lia.
    rewrite (Z.pow_add_r 2 (Zpos p) (Zpos p)) by lia. ring.
  - rewrite shr_1_m by assumption. reflexivity.
Qed.

Lemma shr_m_shr (m e k : Z) (l : location) :
  0 <= m -> 0 <= k ->
  shr_m (fst (shr (shr_record_of_loc m l) e k)) = m / 2 ^ k
  /\ snd (shr (shr_record_of_loc m l) e k) = e + k.
Proof.
  intros Hm Hk.
  assert (Hrec : shr_m (shr_record_of_loc m l) = m)
    by (destruct l as [| []]; reflexivity).
  destruct k as [| k | k]; cbn [shr fst snd].
  - rewrite Hrec, Z.pow_0_r, Z.div_1_r. split; [reflexivity | lia].
  - rewrite iter_shr_1_m by (rewrite Hrec; assumption).
    rewrite Hrec. split; reflexivity.
  - lia.
Qed.

Lemma round_nearest_even_step (t : Z) (l : location) :
  round_nearest_even t l = t \/ round_nearest_even t l = t + 1.
Proof.
  destruct l as [| []]; cbn [round_nearest_even]; auto.
  destruct (Z.even t); auto.
Qed.

Lemma shr_fexp_spec (m e : Z) (l : location) :
  0 <= m -> 0 <= fexp prec emax (Zdigits2 m + e) - e ->
  exists r,
    shr_fexp prec emax m e l = (r, fexp prec emax (Zdigits2 m + e))
    /\ shr_m r = m / 2 ^ (fexp prec emax (Zdigits2 m + e) - e).
Proof.
  intros Hm Hk. unfold shr_fexp.
  destruct (shr_m_shr m e (fexp prec emax (Zdigits2 m + e) - e) l Hm Hk)
    as [H1 H2].
  destruct (shr (shr_record_of_loc m l) e
              (fexp prec emax (Zdigits2 m + e) - e)) as [r e'].
  cbn [fst snd] in H1, H2. exists r. split; [f_equal; lia | exact H1].
Qed.

Lemma fexp_normal (d : Z) : -1074 <= d - 53 -> fexp prec emax d = d - 53.
Proof. unfold fexp, emin, prec, emax. lia. Qed.

(** A mantissa of 53 digits is kept as it is. *)
Lemma round_aux_exact (M : positive) (e : Z) :
  Zpos (digits2_pos M) = 53 -> -1074 <= e ->
  binary_round_aux prec emax false (Zpos M) e loc_Exact = finite_or_inf M e.
Proof.
  intros Hd He.
  assert (E : shr_fexp prec emax (Zpos M) e loc_Exact
              = ({| shr_m := Zpos M; shr_r := false; shr_s := false |}, e)).
  { unfold shr_fexp. cbn [Zdigits2]. rewrite Hd, fexp_normal by lia.
    replace (53 + e - 53 - e) with 0 by lia. reflexivity. }
  unfold binary_round_aux. rewrite E.
  cbn [shr_m loc_of_shr_record round_nearest_even]. rewrite E.
  reflexivity.
Qed.

(** A longer mantissa is cut to 53 digits: the result is within one unit
    in the last place of the exact value. *)
Lemma round_aux_bounds (M : positive) (e : Z) :
  53 < Zpos (digits2_pos M) -> -1074 <= Zpos (digits2_pos M) + e - 53 ->
  exists m e',
    binary_round_aux prec emax false (Zpos M) e loc_Exact = finite_or_inf m e'
    /\ 2 ^ 52 <= Zpos m < 2 ^ 53
    /\ Zpos (digits2_pos M) - 53 <= e' - e <= Zpos (digits2_pos M) - 52
    /\ (Zpos m - 1) * 2 ^ (e' - e) <= Zpos M <= (Zpos m + 1) * 2 ^ (e' - e).
Proof.
  intros Hd Hn.
  set (d := Zpos (digits2_pos M)) in *.
  set (k := d - 53).
  assert (Hk : 0 < k) by (unfold k; lia).
  assert (H2k : 0 < 2 ^ k) by (apply Z.pow_pos_nonneg; lia).
  (* the first shift *)
  destruct (shr_fexp_spec (Zpos M) e loc_Exact) as (r1 & E1 & Hr1).
  { lia. }
  { cbn [Zdigits2]. fold d. rewrite fexp_normal by lia. lia. }
  cbn [Zdigits2] in E1, Hr1. fold d in E1, Hr1.
  rewrite fexp_normal in E1, Hr1 by lia.
  replace (d + e - 53 - e) with k in Hr1 by (unfold k; lia).
  replace (d + e - 53) with (e + k) in E1 by (unfold k; lia).
  set (t := Zpos M / 2 ^ k) in *.
  destruct (digits2_pos_bounds M) as [Mlo Mhi]. fold d in Mlo, Mhi.
  replace (d - 1) with (k + 52) in Mlo by (unfold k; lia).
  replace d with (k + 53) in Mhi by (unfold k; lia).
  rewrite Z.pow_add_r in Mlo, Mhi by lia.
  assert (Ht : 2 ^ 52 <= t < 2 ^ 53).
  { unfold t. split.
    - apply Z.div_le_lower_bound; lia.
    - apply Z.div_lt_upper_bound; lia. }
  assert (HM : t * 2 ^ k <= Zpos M < (t + 1) * 2 ^ k).
  { unfold t. pose proof (Z.mul_div_le (Zpos M) (2 ^ k) H2k).
    pose proof (Z.mul_succ_div_gt (Zpos M) (2 ^ k) H2k). lia. }
  (* the rounded mantissa *)
  unfold binary_round_aux. rewrite E1, Hr1.
  set (m1 := round_nearest_even t (loc_of_shr_record r1)).
  assert (Hm1 : m1 = t \/ m1 = t + 1) by apply round_nearest_even_step.
  assert (Hm1pos : 0 < m1) by lia.
  destruct m1 as [| p1 | p1] eqn:Em1; try lia.
  destruct (Z.eq_dec (Zpos p1) (2 ^ 53)) as [Hcarry | Hnocarry].
  - (* the mantissa reached 2^53 and is halved *)
    assert (Hd1 : Zpos (digits2_pos p1) = 54).
    { apply digits2_pos_unique. rewrite Hcarry. cbn. lia. }
    destruct (shr_fexp_spec (Zpos p1) (e + k) loc_Exact) as (r2 & E2 & Hr2).
    { lia. }
    { cbn [Zdigits2]. rewrite Hd1, fexp_normal by (unfold k; lia). lia. }
    cbn [Zdigits2] in E2, Hr2. rewrite Hd1 in E2, Hr2.
    rewrite fexp_normal in E2, Hr2 by (unfold k; lia).
    replace (54 + (e + k) - 53 - (e + k)) with 1 in Hr2 by lia.
    rewrite E2, Hr2, Hcarry.
    change (2 ^ 53 / 2 ^ 1) with (Zpos (2 ^ 52)).
    exists (2 ^ 52)%positive, (54 + (e + k) - 53).
    split; [reflexivity |].
    split; [cbn; lia |].
    split; [unfold k; lia |].
    replace (54 + (e + k) - 53 - e) with (k + 1) by lia.
    rewrite Z.pow_add_r, Z.pow_1_r by lia.
    change (Zpos (2 ^ 52)) with (2 ^ 52).
    assert (t = 2 ^ 53 - 1) by lia.
    lia.
  - (* no carry *)
    assert (Hd1 : Zpos (digits2_pos p1) = 53).
    { apply digits2_pos_unique. change (53 - 1) with 52. lia. }
    destruct (shr_fexp_spec (Zpos p1) (e + k) loc_Exact) as (r2 & E2 & Hr2).
    { lia. }
    { cbn [Zdigits2]. rewrite Hd1, fexp_normal by (unfold k; lia). lia. }
    cbn [Zdigits2] in E2, Hr2. rewrite Hd1 in E2, Hr2.
    rewrite fexp_normal in E2, Hr2 by (unfold k; lia).
    replace (53 + (e + k) - 53 - (e + k)) with 0 in Hr2 by lia.
    rewrite Z.pow_0_r, Z.div_1_r in Hr2.
    rewrite E2, Hr2.
    exists p1, (53 + (e + k) - 53).
    split; [reflexivity |].
    split; [lia |].
    split; [unfold k; lia |].
    replace (53 + (e + k) - 53 - e) with k by lia.
    lia.
Qed.

Lemma iter_xO (p j : positive) : Zpos (Pos.iter xO p j) = Zpos p * 2 ^ Zpos j.
Proof.
  apply (Pos.iter_ind positive xO p
           (fun j q => Zpos q = Zpos p * 2 ^ Zpos j)).
  - rewrite (Pos2Z.inj_xO p). change (2 ^ 1) with 2. ring.
  - intros j' q IH. rewrite (Pos2Z.inj_xO q), IH, Pos2Z.inj_succ.
    rewrite Z.pow_succ_r by lia. ring.
Qed.

Lemma finite_or_inf_finite (m : positive) (e : Z) :
  e <= 971 -> finite_or_inf m e = S754_finite false m e.
Proof.
  intros He. unfold finite_or_inf, emax, prec.
  destruct (Z.leb_spec e (1024 - 53)); [reflexivity | lia].
Qed.

(** [float(n)] of a positive [n] below [2^1021]: a normal double within
    one unit in the last place of [n]. *)
Lemma of_int_pos (n : Z) :
  0 < n < 2 ^ 1021 ->
  exists mx ex,
    of_int n = Return (S754_finite false mx ex)
    /\ 2 ^ 52 <= Zpos mx < 2 ^ 53
    /\ -52 <= ex <= 969
    /\ (Zpos mx - 1) * 2 ^ (ex + 52) <= n * 2 ^ 52
       <= (Zpos mx + 1) * 2 ^ (ex + 52).
Proof.
  intros [Hpos Hlt].
  destruct n as [| p | p]; try lia.
  destruct (digits2_pos_bounds p) as [Plo Phi].
  set (d := Zpos (digits2_pos p)) in *.
  assert (Hd1 : 1 <= d) by (unfold d; lia).
  assert (Hd2 : d <= 1021).
  { destruct (Z.le_gt_cases d 1021) as [|Hgt]; [assumption|].
    assert (2 ^ 1021 <= 2 ^ (d - 1)) by (apply Z.pow_le_mono_r; lia).
    lia. }
  unfold of_int, binary_normalize, binary_round, shl_align.
  fold d. rewrite fexp_normal by lia.
  destruct (Z.lt_trichotomy d 53) as [Hlt53 | [Heq53 | Hgt53]].
  - (* fewer than 53 digits: the mantissa is shifted left, exactly *)
    destruct (d + 0 - 53 - 0) as [| j | j] eqn:Ej; try lia.
    assert (Hj : Zpos j = 53 - d) by lia.
    assert (Hdig : Zpos (digits2_pos (Pos.iter xO p j)) = 53).
    { apply digits2_pos_unique. rewrite iter_xO, Hj.
      assert (E1 : 2 ^ (53 - 1) = 2 ^ (d - 1) * 2 ^ (53 - d)).
      { rewrite <- Z.pow_add_r by lia. f_equal. lia. }
      assert (E2 : 2 ^ 53 = 2 ^ d * 2 ^ (53 - d)).
      { rewrite <- Z.pow_add_r by lia. f_equal. lia. }
      assert (0 < 2 ^ (53 - d)) by (apply Z.pow_pos_nonneg; lia).
      split.
      - rewrite E1. apply Z.mul_le_mono_nonneg_r; lia.
      - rewrite E2. apply Z.mul_lt_mono_pos_r; lia. }
    rewrite round_aux_exact by lia.
    rewrite finite_or_inf_finite by lia.
    exists (Pos.iter xO p j), (d + 0 - 53).
    split; [reflexivity |].
    destruct (digits2_pos_bounds (Pos.iter xO p j)) as [Qlo Qhi].
    rewrite Hdig in Qlo, Qhi.
    split; [change (53 - 1) with 52 in Qlo; lia |].
    split; [lia |].
    rewrite iter_xO, Hj.
    replace (d + 0 - 53 + 52) with (d - 1) by lia.
    assert (E : 2 ^ 52 = 2 ^ (53 - d) * 2 ^ (d - 1)).
    { rewrite <- Z.pow_add_r by lia. f_equal. lia. }
    assert (0 < 2 ^ (d - 1)) by (apply Z.pow_pos_nonneg; lia).
    assert (Zpos p * 2 ^ 52 = Zpos p * 2 ^ (53 - d) * 2 ^ (d - 1))
      by (rewrite E; ring).
    lia.
  - (* exactly 53 digits *)
    destruct (d + 0 - 53 - 0) as [| j | j] eqn:Ej; try lia.
    rewrite round_aux_exact by (fold d; lia).
    rewrite finite_or_inf_finite by lia.
    exists p, 0.
    split; [reflexivity |].
    split; [rewrite Heq53 in Plo, Phi; change (53 - 1) with 52 in Plo; lia |].
    split; [lia |]. lia.
  - (* more digits: rounded *)
    destruct (d + 0 - 53 - 0) as [| j | j] eqn:Ej; try lia.
    destruct (round_aux_bounds p 0) as (m & e' & E & Hm & He & Hb).
    { fold d. lia. }
    { fold d. lia. }
    fold d in He.
    rewrite E, finite_or_inf_finite by lia.
    exists m, e'.
    split; [reflexivity |].
    split; [exact Hm |].
    split; [lia |].
    replace (e' - 0) with e' in Hb by lia.
    rewrite Z.pow_add_r by lia.
    lia.
Qed.

(** [n * c] for a positive [n] below [2^1021] and a normal [c] in
    [[1/2, 2)]: a finite double [m * 2^e], whose distance to the exact
    product is bounded by two roundings. The bounds are scaled to
    integers. *)
Lemma int_mul_bounds (n : Z) (mc : positive) (ec : Z) :
  0 < n < 2 ^ 1021 ->
  2 ^ 52 <= Zpos mc < 2 ^ 53 -> -53 <= ec <= -52 ->
  exists m e,
    int_mul n (S754_finite false mc ec) = Return (S754_finite false m e)
    /\ -53 <= e
    /\ (2 ^ 52 - 1) ^ 2 * (Zpos m * 2 ^ (e + 52 - ec))
       <= 2 ^ 156 * (Zpos mc * n)
    /\ 2 ^ 156 * (Zpos mc * n)
       <= (2 ^ 52 + 1) ^ 2 * (Zpos m * 2 ^ (e + 52 - ec)).
Proof.
  intros Hn Hmc Hec.
  destruct (of_int_pos n Hn) as (mx & ex & Eof & Hmx & Hex & Hx).
  unfold int_mul. rewrite Eof. unfold mul, SFmul. cbn [xorb].
  assert (Hprod : 2 ^ 104 <= Zpos (mx * mc) < 2 ^ 106).
  { rewrite Pos2Z.inj_mul.
    change (2 ^ 104) with (2 ^ 52 * 2 ^ 52).
    change (2 ^ 106) with (2 ^ 53 * 2 ^ 53). nia. }
  destruct (digits2_pos_bounds (mx * mc)) as [Dlo Dhi].
  set (D := Zpos (digits2_pos (mx * mc))) in *.
  assert (HD : 105 <= D <= 106).
  { split.
    - destruct (Z.le_gt_cases 105 D) as [|Hs]; [assumption|].
      assert (2 ^ D <= 2 ^ 104) by (apply Z.pow_le_mono_r; unfold D; lia).
      lia.
    - destruct (Z.le_gt_cases D 106) as [|Hs]; [assumption|].
      assert (2 ^ 106 <= 2 ^ (D - 1)) by (apply Z.pow_le_mono_r; lia).
      lia. }
  destruct (round_aux_bounds (mx * mc) (ex + ec)) as (m & e & E & Hm & He & Hb).
  { fold D. lia. }
  { fold D. lia. }
  fold D in He.
  rewrite E, finite_or_inf_finite by lia.
  exists m, e. split; [reflexivity |]. split; [lia |].
  rewrite Pos2Z.inj_mul in Hb.
  set (A := 2 ^ (ex + 52)) in *.
  set (B := 2 ^ (e - (ex + ec))) in *.
  assert (HA : 0 < A) by (apply Z.pow_pos_nonneg; lia).
  assert (HB : 0 < B) by (apply Z.pow_pos_nonneg; lia).
  assert (EK : 2 ^ (e + 52 - ec) = B * A).
  { unfold A, B. rewrite <- Z.pow_add_r by lia. f_equal. lia. }
  rewrite EK.
  assert (F2 : A * 2 ^ 52 <= Zpos mx * A) by nia.
  assert (F4 : B * A * 2 ^ 52 <= Zpos m * (B * A)) by nia.
  assert (F3 : (Zpos m - 1) * (B * A) <= Zpos mc * (Zpos mx * A)
               <= (Zpos m + 1) * (B * A)).
  { replace (Zpos mc * (Zpos mx * A)) with (Zpos mx * Zpos mc * A) by ring.
    replace ((Zpos m - 1) * (B * A)) with ((Zpos m - 1) * B * A) by ring.
    replace ((Zpos m + 1) * (B * A)) with ((Zpos m + 1) * B * A) by ring.
    split; apply Z.mul_le_mono_nonneg_r; lia. }
  assert (G1 : Zpos mc * (n * 2 ^ 52 * 2 ^ 52)
               <= Zpos mc * (Zpos mx * A * (2 ^ 52 + 1))).
  { apply Z.mul_le_mono_nonneg_l; lia. }
  assert (G2 : Zpos mc * (Zpos mx * A * (2 ^ 52 - 1))
               <= Zpos mc * (n * 2 ^ 52 * 2 ^ 52)).
  { apply Z.mul_le_mono_nonneg_l; lia. }
  split; lia.
Qed.

(** The exact comparison with a positive finite double, scaled to
    integers. *)
Lemma cmp_int_finite (z : Z) (m : positive) (e s : Z) :
  0 <= s -> 0 <= e + s ->
  cmp_int z (S754_finite false m e) = Some (z * 2 ^ s ?= Zpos m * 2 ^ (e + s)).
Proof.
  intros Hs Hes. unfold cmp_int. f_equal.
  destruct (Z.leb_spec 0 e) as [He | He].
  - rewrite Z.pow_add_r by lia.
    rewrite Z.mul_assoc.
    apply Zmult_compare_compat_r.
    apply Z.lt_gt, Z.pow_pos_nonneg; lia.
  - replace s with (- e + (e + s)) at 1 by lia.
    rewrite Z.pow_add_r by lia.
    rewrite Z.mul_assoc.
    apply Zmult_compare_compat_r.
    apply Z.lt_gt, Z.pow_pos_nonneg; lia.
Qed.

(** A threshold [n * c] seen through its comparisons: it compares with
    integers as the integer [V] does at the scale [2^(52 - ec)], and [V]
    is close to the exact product. *)
Lemma int_mul_view (n : Z) (mc : positive) (ec : Z) :
  0 <= n < 2 ^ 1021 ->
  2 ^ 52 <= Zpos mc < 2 ^ 53 -> -53 <= ec <= -52 ->
  exists f V,
    int_mul n (S754_finite false mc ec) = Return f
    /\ (forall z, cmp_int z f = Some (z * 2 ^ (52 - ec) ?= V))
    /\ (2 ^ 52 - 1) ^ 2 * V <= 2 ^ 156 * (Zpos mc * n)
       <= (2 ^ 52 + 1) ^ 2 * V.
Proof.
  intros Hn Hmc Hec.
  destruct (Z.eq_dec n 0) as [-> | Hnz].
  - exists (S754_zero false), 0. split; [reflexivity |]. split.
    + intros z. cbn [cmp_int]. f_equal.
      rewrite (Zmult_compare_compat_r z 0 (2 ^ (52 - ec))).
      * reflexivity.
      * apply Z.lt_gt, Z.pow_pos_nonneg; lia.
    + lia.
  - destruct (int_mul_bounds n mc ec) as (m & e & E & He & Hlo & Hhi);
      [lia | assumption | assumption |].
    exists (S754_finite false m e), (Zpos m * 2 ^ (e + 52 - ec)).
    split; [exact E |]. split.
    + intros z. rewrite (cmp_int_finite z m e (52 - ec)) by lia.
      replace (e + (52 - ec)) with (e + 52 - ec) by lia. reflexivity.
    + split; assumption.
Qed.

Ltac by_compare H :=
  unfold int_gt, int_lt; rewrite H;
  match goal with
  | |- context [?a ?= ?b] => destruct (Z.compare_spec a b)
  end; try reflexivity; try discriminate; try lia.

Lemma thresholds_ordered (n : Z) (has_been_cut : bool) :
  0 <= n < 2 ^ 1021 ->
  exists target small large,
    target_size n has_been_cut = Return target
    /\ stop_size_sm n = Return small
    /\ stop_size_lg n = Return large
    /\ ordered_thresholds n target small large.
Proof.
  intros Hn.
  assert (Ht : exists mc, (mc = 4818851601286431 \/ mc = 4953959590107546)%positive
               /\ target_size n has_been_cut
                  = int_mul n (S754_finite false mc (-52))).
  { destruct has_been_cut; eexists; split; [left | | right |]; reflexivity. }
  destruct Ht as (mc & Hmc & Et).
  destruct (int_mul_view n mc (-52)) as (target & Vt & Rt & Ct & Bt);
    [assumption | destruct Hmc; subst mc; cbn; lia | lia |].
  destruct (int_mul_view n 7205759403792794 (-53)) as (small & Vs & Rs & Cs & Bs);
    [assumption | cbn; lia | lia |].
  destruct (int_mul_view n 8106479329266893 (-52)) as (large & Vl & Rl & Cl & Bl);
    [assumption | cbn; lia | lia |].
  change (52 - -52) with 104 in Ct, Cl.
  change (52 - -53) with 105 in Cs.
  exists target, small, large.
  split; [rewrite Et; exact Rt |].
  split; [exact Rs |].
  split; [exact Rl |].
  assert (Gt1 : n * 2 ^ 104 <= Vt) by (destruct Hmc; subst mc; lia).
  assert (Gs1 : Vs <= n * 2 ^ 105) by lia.
  assert (Gl1 : Vt <= Vl) by (destruct Hmc; subst mc; lia).
  constructor; [intros z .. | ]; [ | | | | | intros Hpos z ].
  - intros Hz. by_compare (Ct z).
  - intros Hz. by_compare (Ct z).
  - intros Hz. by_compare (Cs z).
  - intros Hz. by_compare (Cs z).
  - unfold int_gt. rewrite (Ct z), (Cl z).
    destruct (Z.compare_spec (z * 2 ^ 104) Vl); try discriminate.
    destruct (Z.compare_spec (z * 2 ^ 104) Vt); try reflexivity; lia.
  - assert (Gl2 : Vt < Vl) by (destruct Hmc; subst mc; lia).
    unfold int_gt, int_lt. rewrite (Ct z), (Cl z).
    destruct (Z.compare_spec (z * 2 ^ 104) Vt); try discriminate;
      destruct (Z.compare_spec (z * 2 ^ 104) Vl); try reflexivity; lia.
Qed.

(** The thresholds that were computed are the ordered ones. *)
Lemma computed_thresholds_ordered (n : Z) (has_been_cut : bool)
    (target small large : float) :
  0 <= n < 2 ^ 1021 ->
  target_size n has_been_cut = Return target ->
  stop_size_sm n = Return small ->
  stop_size_lg n = Return large ->
  ordered_thresholds n target small large.
Proof.
  intros Hn Ht Hs Hl.
  destruct (thresholds_ordered n has_been_cut Hn)
    as (t' & s' & l' & Et & Es & El & Hord).
  congruence.
Qed.

End FloatFacts.

(** ** The revision selector *)

Section SelectorFacts.

Import PyFloat FloatFacts.

Lemma sorted_newest_first_id (entries : list FileMetadata) :
  Sorted not_older entries -> sorted_newest_first entries = entries.
Proof.
  unfold sorted_newest_first, stable_sort.
  induction 1 as [| a l Hl IH Hd]; cbn [fold_right]; [reflexivity |].
  rewrite IH.
  destruct Hd as [| b l' Hab]; cbn [insert_sorted]; [reflexivity |].
  unfold not_older in Hab.
  destruct (Z.ltb_spec (server_modified a) (server_modified b));
    [lia | reflexivity].
Qed.

Lemma div_int_returns (x : float) (n : Z) :
  0 < n < 2 ^ 1021 -> exists q, div_int x n = Return q.
Proof.
  intros Hn. destruct (of_int_pos n Hn) as (m & e & E & _).
  unfold div_int. rewrite E. eexists. reflexivity.
Qed.

Lemma bytes_to_human_str_returns (n : Z) :
  in_float_range n -> exists s, bytes_to_human_str n = Return s.
Proof.
  intros Hn. unfold in_float_range in Hn. unfold bytes_to_human_str.
  assert (Hconv : KILOBYTES_MULT < n ->
                  forall k suffix, 0 < k < 2 ^ 1021 ->
                    exists s,
                      (x <- of_int n ;; q <- div_int x k ;;
                       Return (format_2f q ++ suffix))%outcome = Return s).
  { intros Hk k suffix Hkr. unfold KILOBYTES_MULT in Hk.
    destruct (of_int_pos n) as (m & e & E & _); [lia |].
    rewrite E. cbn [obind].
    destruct (div_int_returns (S754_finite false m e) k Hkr) as (q & Eq).
    rewrite Eq. cbn [obind]. eexists. reflexivity. }
  assert (HG : 0 < GIGABYTES_MULT < 2 ^ 1021) by (cbv; split; reflexivity).
  assert (HM : 0 < MEGABYTES_MULT < 2 ^ 1021) by (cbv; split; reflexivity).
  assert (HK : 0 < KILOBYTES_MULT < 2 ^ 1021) by (cbv; split; reflexivity).
  destruct (Z.gtb_spec n GIGABYTES_MULT) as [Hg | Hg].
  { apply Hconv; [unfold GIGABYTES_MULT, KILOBYTES_MULT in *; lia | exact HG]. }
  destruct (Z.gtb_spec n MEGABYTES_MULT) as [Hm | Hm].
  { apply Hconv; [unfold MEGABYTES_MULT, KILOBYTES_MULT in *; lia | exact HM]. }
  destruct (Z.gtb_spec n KILOBYTES_MULT) as [Hk | Hk].
  { apply Hconv; [lia | exact HK]. }
  eexists. reflexivity.
Qed.

(** The selector is the walk over the revisions after the newest one. *)
Lemma select_revision_walk (entries : list FileMetadata) (latest : FileMetadata)
    (older : list FileMetadata) (has_been_cut : bool) (cutoff : option datetime)
    (target small large : float) :
  sorted_newest_first entries = latest :: older ->
  target_size (size latest) has_been_cut = Return target ->
  stop_size_sm (size latest) = Return small ->
  stop_size_lg (size latest) = Return large ->
  in_float_range (size latest) ->
  select_revision entries has_been_cut cutoff
  = walk_revisions target small large cutoff older.
Proof.
  intros Hs Ht Hsm Hlg Hr. unfold select_revision. rewrite Hs.
  destruct (bytes_to_human_str_returns _ Hr) as (s & Es).
  rewrite Es, Ht, Hsm, Hlg. reflexivity.
Qed.

Lemma walk_continues (target small large : float) (cutoff : option datetime)
    (r : FileMetadata) (older : list FileMetadata) :
  in_float_range (size r) ->
  continues target small large cutoff r ->
  walk_revisions target small large cutoff (r :: older)
  = walk_revisions target small large cutoff older.
Proof.
  intros Hr (Hp & Hl & Ht & Hs). cbn [walk_revisions].
  destruct (bytes_to_human_str_returns _ Hr) as (s & Es).
  rewrite Hp, Es. cbn [obind]. rewrite Hl, Ht, Hs. reflexivity.
Qed.

Lemma walk_continues_prefix (target small large : float) (cutoff : option datetime)
    (pre rest : list FileMetadata) :
  sizes_in_range pre ->
  Forall (continues target small large cutoff) pre ->
  walk_revisions target small large cutoff (pre ++ rest)
  = walk_revisions target small large cutoff rest.
Proof.
  induction pre as [| p pre IH]; intros Hr Hc; [reflexivity |].
  inversion Hr as [| ? ? Hp Hr']; subst.
  inversion Hc as [| ? ? Hcp Hc']; subst.
  cbn [app]. rewrite walk_continues by assumption. auto.
Qed.

(** A cutoff without UTC offset can be compared with every revision. *)
Lemma predates_returns (cutoff : option datetime) (r : FileMetadata) :
  offset_free cutoff -> exists b, predates cutoff r = Return b.
Proof.
  destruct cutoff as [[t | t utcoffset] |]; cbn; [eauto | contradiction | eauto].
Qed.

(** A cutoff with a UTC offset cannot. *)
Lemma predates_raises (cutoff : option datetime) (r : FileMetadata) :
  ~ offset_free cutoff -> predates cutoff r = Raise TypeError.
Proof.
  destruct cutoff as [[t | t utcoffset] |]; cbn; intros H;
    [contradiction H; exact I | reflexivity | contradiction H; exact I].
Qed.

(** The walk returns normally on sizes in range, when the cutoff can be
    compared. *)
Lemma walk_returns (target small large : float) (cutoff : option datetime)
    (revisions : list FileMetadata) :
  offset_free cutoff ->
  sizes_in_range revisions ->
  exists u, walk_revisions target small large cutoff revisions = Return u.
Proof.
  intros Hfree.
  induction revisions as [| r older IH]; intros Hr.
  - eexists. reflexivity.
  - inversion Hr as [| ? ? Hp Hr']; subst. cbn [walk_revisions].
    destruct (predates_returns cutoff r Hfree) as (too_old & Ep).
    rewrite Ep. cbn [obind].
    destruct too_old; [eexists; reflexivity |].
    destruct (bytes_to_human_str_returns _ Hp) as (s & Es). rewrite Es.
    cbn [obind].
    destruct (int_gt (size r) large); [eexists; reflexivity |].
    destruct (int_gt (size r) target); [eexists; reflexivity |].
    destruct (int_lt (size r) small); [eexists; reflexivity |].
    auto.
Qed.

(** What the walk returns was tested: it exceeds the target and not the
    large stop, and it does not predate the cutoff. *)
Lemma walk_some (target small large : float) (cutoff : option datetime)
    (revisions : list FileMetadata) (r : FileMetadata) :
  walk_revisions target small large cutoff revisions = Return (Some r) ->
  In r revisions
  /\ predates cutoff r = Return false
  /\ int_gt (size r) large = false
  /\ int_gt (size r) target = true
  /\ exists s, bytes_to_human_str (size r) = Return s.
Proof.
  induction revisions as [| x older IH]; cbn [walk_revisions]; [discriminate |].
  destruct (predates cutoff x) as [[|] |] eqn:Ep; cbn [obind]; try discriminate.
  destruct (bytes_to_human_str (size x)) as [s |] eqn:Es; [| discriminate].
  cbn [obind].
  destruct (int_gt (size x) large) eqn:El; [discriminate |].
  destruct (int_gt (size x) target) eqn:Et.
  - intros [= <-]. repeat split; try assumption; [left; reflexivity | eauto].
  - destruct (int_lt (size x) small); [discriminate |].
    intros H. destruct (IH H) as (Hin & Hrest). split; [right |]; assumption.
Qed.

End SelectorFacts.

Section SelectorClaims.

Import PyFloat FloatFacts.

Lemma insert_sorted_In {A} (before : A -> A -> bool) (x a : A) (l : list A) :
  In x (insert_sorted before a l) <-> a = x \/ In x l.
Proof.
  induction l as [| y l IH]; cbn [insert_sorted]; [reflexivity |].
  destruct (before y a); cbn [In]; [rewrite IH |]; tauto.
Qed.

Lemma stable_sort_In {A} (before : A -> A -> bool) (x : A) (l : list A) :
  In x (stable_sort before l) <-> In x l.
Proof.
  unfold stable_sort.
  induction l as [| a l IH]; cbn [fold_right In]; [reflexivity |].
  rewrite insert_sorted_In, IH. reflexivity.
Qed.

Lemma walk_same_size (n : Z) (target small large : float) (cutoff : option datetime)
    (older : list FileMetadata) :
  offset_free cutoff ->
  in_float_range n ->
  ordered_thresholds n target small large ->
  Forall (fun r => size r = n) older ->
  walk_revisions target small large cutoff older = Return None.
Proof.
  intros Hfree Hn Hord. induction 1 as [| r older Hr _ IH]; [reflexivity |].
  destruct (predates_returns cutoff r Hfree) as ([|] & Ep);
    [cbn [walk_revisions]; rewrite Ep; reflexivity |].
  rewrite walk_continues; [exact IH | rewrite Hr; exact Hn |].
  rewrite <- Hr in Hord.
  assert (Ht : int_gt (size r) target = false)
    by (apply (target_above _ _ _ _ Hord); lia).
  repeat split; try assumption.
  - destruct (int_gt (size r) large) eqn:El; [| reflexivity].
    rewrite (large_above_target _ _ _ _ Hord _ El) in Ht. discriminate.
  - apply (small_below _ _ _ _ Hord). lia.
Qed.

(** C1. In a history that is newest first, with no cutoff, when the walk
    passes over the revisions [pre] after the newest one without any test
    holding and then meets [r], whose size exceeds [target_size] and not
    [stop_size_lg], the selector returns [r]; no revision between the
    newest one and [r] exceeds [target_size], so [r] is the most recent
    one that does. *)
Theorem first_match_is_selected
    (latest r : FileMetadata) (pre post : list FileMetadata)
    (has_been_cut : bool) (target small large : float) :
  Sorted not_older (latest :: pre ++ r :: post) ->
  sizes_in_range (latest :: pre ++ [r]) ->
  target_size (size latest) has_been_cut = Return target ->
  stop_size_sm (size latest) = Return small ->
  stop_size_lg (size latest) = Return large ->
  Forall (continues target small large None) pre ->
  int_gt (size r) large = false ->
  int_gt (size r) target = true ->
  select_revision (latest :: pre ++ r :: post) has_been_cut None
  = Return (Some r)
  /\ Forall (fun p => int_gt (size p) target = false) pre.
Proof.
  intros Hsorted Hrange Ht Hs Hl Hpre Hrl Hrt.
  inversion Hrange as [| ? ? Hlatest Hrest]; subst.
  apply Forall_app in Hrest. destruct Hrest as [Hrpre Hrr].
  inversion Hrr as [| ? ? Hr _]; subst.
  split.
  - rewrite (select_revision_walk _ latest (pre ++ r :: post) _ _ target small large);
      try assumption; [| apply sorted_newest_first_id; assumption].
    rewrite walk_continues_prefix by assumption.
    cbn [walk_revisions predates obind].
    destruct (bytes_to_human_str_returns _ Hr) as (s & Es).
    rewrite Es. cbn [obind]. rewrite Hrl, Hrt. reflexivity.
  - eapply Forall_impl; [| exact Hpre]. intros p (_ & _ & Hp & _). exact Hp.
Qed.

(** C2. When the walk passes over [pre] and then meets [r], whose size
    exceeds [stop_size_lg], the selector returns no match, although the
    size of [r] exceeds [target_size] as well. The cutoff, if any, is one
    that can be compared with [r]. *)
Theorem large_stop_returns_no_match
    (entries : list FileMetadata) (latest r : FileMetadata)
    (pre post : list FileMetadata) (has_been_cut : bool) (cutoff : option datetime)
    (target small large : float) :
  sorted_newest_first entries = latest :: pre ++ r :: post ->
  sizes_in_range (latest :: pre ++ [r]) ->
  target_size (size latest) has_been_cut = Return target ->
  stop_size_sm (size latest) = Return small ->
  stop_size_lg (size latest) = Return large ->
  offset_free cutoff ->
  Forall (continues target small large cutoff) pre ->
  int_gt (size r) large = true ->
  select_revision entries has_been_cut cutoff = Return None
  /\ int_gt (size r) target = true.
Proof.
  intros Hsorted Hrange Ht Hs Hl Hfree Hpre Hrl.
  inversion Hrange as [| ? ? Hlatest Hrest]; subst.
  apply Forall_app in Hrest. destruct Hrest as [Hrpre Hrr].
  inversion Hrr as [| ? ? Hr _]; subst.
  split.
  - rewrite (select_revision_walk _ latest (pre ++ r :: post) _ _ target small large)
      by assumption.
    rewrite walk_continues_prefix by assumption.
    cbn [walk_revisions].
    destruct (predates_returns cutoff r Hfree) as (too_old & Ep).
    rewrite Ep. cbn [obind]. destruct too_old; [reflexivity |].
    destruct (bytes_to_human_str_returns _ Hr) as (s & Es).
    rewrite Es. cbn [obind]. rewrite Hrl. reflexivity.
  - apply (large_above_target (size latest) target small large); [| assumption].
    apply (computed_thresholds_ordered _ has_been_cut); assumption.
Qed.

(** C3. When the walk passes over [pre] and then meets [r], whose size is
    below [stop_size_sm], the selector returns no match, whatever the
    older revisions [post] are. The cutoff, if any, is one that can be
    compared with [r]. *)
Theorem small_stop_returns_no_match
    (entries : list FileMetadata) (latest r : FileMetadata)
    (pre post : list FileMetadata) (has_been_cut : bool) (cutoff : option datetime)
    (target small large : float) :
  sorted_newest_first entries = latest :: pre ++ r :: post ->
  sizes_in_range (latest :: pre ++ [r]) ->
  target_size (size latest) has_been_cut = Return target ->
  stop_size_sm (size latest) = Return small ->
  stop_size_lg (size latest) = Return large ->
  offset_free cutoff ->
  Forall (continues target small large cutoff) pre ->
  int_lt (size r) small = true ->
  select_revision entries has_been_cut cutoff = Return None.
Proof.
  intros Hsorted Hrange Ht Hs Hl Hfree Hpre Hrs.
  inversion Hrange as [| ? ? Hlatest Hrest]; subst.
  apply Forall_app in Hrest. destruct Hrest as [Hrpre Hrr].
  inversion Hrr as [| ? ? Hr _]; subst.
  assert (Hord : ordered_thresholds (size latest) target small large)
    by (apply (computed_thresholds_ordered _ has_been_cut); assumption).
  assert (Hlt : size r < size latest).
  { destruct (Z.lt_ge_cases (size r) (size latest)) as [| Hge]; [assumption |].
    rewrite (small_below _ _ _ _ Hord _ Hge) in Hrs. discriminate. }
  assert (Hrt : int_gt (size r) target = false)
    by (apply (target_above _ _ _ _ Hord); lia).
  rewrite (select_revision_walk _ latest (pre ++ r :: post) _ _ target small large)
    by assumption.
  rewrite walk_continues_prefix by assumption.
  cbn [walk_revisions].
  destruct (predates_returns cutoff r Hfree) as (too_old & Ep).
  rewrite Ep. cbn [obind]. destruct too_old; [reflexivity |].
  destruct (bytes_to_human_str_returns _ Hr) as (s & Es).
  rewrite Es. cbn [obind].
  destruct (int_gt (size r) large); [reflexivity |].
  rewrite Hrt, Hrs. reflexivity.
Qed.

(** C4, as stated, fails for a cutoff that carries a UTC offset, which
    [datetime.fromisoformat] reads from the argument of [--lt] as an aware
    [datetime]: the second revision was modified before the cutoff, but
    its naive time cannot be compared with the cutoff, the comparison
    raises [TypeError], and neither the selector nor the run returns. *)
Lemma aware_cutoff_raises :
  server_modified (revision 20 1150) < utc_instant (Aware 30 0)
  /\ select_revision [revision 40 1000; revision 20 1150] false
       (Some (Aware 30 0))
     = Raise TypeError
  /\ select_revision [revision 40 1000; revision 20 1150] false
       (Some (Aware 30 0))
     <> Return None
  /\ read_options example_host
       [("-d", "/videos/"); ("--lt", "1970-01-01T00:00:00.000002+00:00")]
       initial_options
     = Return (Some {| dry_run := false; media_base := Some "/videos";
                       no_older_than_time := Some (Aware 2 0) |})
  /\ comcut_restore_cli example_host example_dbx
       (Some ([("-d", "/videos/"); ("--lt", "1970-01-01T00:00:00.000002+00:00")],
              ["/videos"]))
       example_world
     = ({| remote := []; calls := [ListRevisions "/Media/a.ts" 30] |},
        Raise TypeError).
Proof.
  split; [cbn; lia |].
  split; [vm_compute; reflexivity |].
  split; [vm_compute; discriminate |].
  split; vm_compute; reflexivity.
Qed.

(** C4, amended. With a cutoff [t] that carries no UTC offset, when the
    walk passes over [pre] and then meets [r], modified strictly before
    [t], the selector returns no match: the size of [r] and the older
    revisions [post] are not looked at. *)
Theorem cutoff_halts_walk
    (entries : list FileMetadata) (latest r : FileMetadata)
    (pre post : list FileMetadata) (has_been_cut : bool) (t : Z)
    (target small large : float) :
  sorted_newest_first entries = latest :: pre ++ r :: post ->
  sizes_in_range (latest :: pre) ->
  target_size (size latest) has_been_cut = Return target ->
  stop_size_sm (size latest) = Return small ->
  stop_size_lg (size latest) = Return large ->
  Forall (continues target small large (Some (Naive t))) pre ->
  server_modified r < t ->
  select_revision entries has_been_cut (Some (Naive t)) = Return None.
Proof.
  intros Hsorted Hrange Ht Hs Hl Hpre Hrt.
  inversion Hrange as [| ? ? Hlatest Hrpre]; subst.
  rewrite (select_revision_walk _ latest (pre ++ r :: post) _ _ target small large)
    by assumption.
  rewrite walk_continues_prefix by assumption.
  cbn [walk_revisions predates naive_lt obind].
  destruct (Z.ltb_spec (server_modified r) t); [reflexivity | lia].
Qed.

Lemma first_match_is_selected_witness :
  select_revision
    [revision 4 1000; revision 3 1050; revision 2 1080; revision 1 1150]
    true None
  = Return (Some (revision 2 1080)).
Proof.
  eapply proj1.
  eapply (first_match_is_selected (revision 4 1000) (revision 2 1080)
            [revision 3 1050] [revision 1 1150] true).
  - repeat constructor; unfold not_older; cbn; lia.
  - repeat constructor; unfold in_float_range; cbn [size revision]; lia.
  - vm_compute. reflexivity.
  - vm_compute. reflexivity.
  - vm_compute. reflexivity.
  - repeat constructor; vm_compute; reflexivity.
  - vm_compute. reflexivity.
  - vm_compute. reflexivity.
Defined.

Lemma large_stop_returns_no_match_witness :
  select_revision
    [revision 2 1050; revision 1 1900; revision 4 1000; revision 0 1150]
    false None
  = Return None.
Proof.
  eapply proj1.
  eapply (large_stop_returns_no_match _ (revision 4 1000) (revision 1 1900)
            [revision 2 1050] [revision 0 1150] false None).
  - vm_compute. reflexivity.
  - repeat constructor; unfold in_float_range; cbn [size revision]; lia.
  - vm_compute. reflexivity.
  - vm_compute. reflexivity.
  - vm_compute. reflexivity.
  - exact I.
  - repeat constructor; vm_compute; reflexivity.
  - vm_compute. reflexivity.
Defined.

Lemma small_stop_returns_no_match_witness :
  select_revision
    [revision 4 1000; revision 3 900; revision 2 750; revision 1 1150]
    false None
  = Return None.
Proof.
  eapply (small_stop_returns_no_match _ (revision 4 1000) (revision 2 750)
            [revision 3 900] [revision 1 1150] false None).
  - vm_compute. reflexivity.
  - repeat constructor; unfold in_float_range; cbn [size revision]; lia.
  - vm_compute. reflexivity.
  - vm_compute. reflexivity.
  - vm_compute. reflexivity.
  - exact I.
  - repeat constructor; vm_compute; reflexivity.
  - vm_compute. reflexivity.
Defined.

Lemma cutoff_halts_walk_witness :
  select_revision
    [revision 40 1000; revision 30 1050; revision 20 1150; revision 10 1200]
    false (Some (Naive 25))
  = Return None.
Proof.
  eapply (cutoff_halts_walk _ (revision 40 1000) (revision 20 1150)
            [revision 30 1050] [revision 10 1200] false 25).
  - vm_compute. reflexivity.
  - repeat constructor; unfold in_float_range; cbn [size revision]; lia.
  - vm_compute. reflexivity.
  - vm_compute. reflexivity.
  - vm_compute. reflexivity.
  - repeat constructor; vm_compute; reflexivity.
  - cbn. lia.
Defined.

(** C5, as stated, fails at [stop_size_lg]: in the history of sizes
    [1000; 1800] the second revision is exactly at [stop_size_lg]
    ([1000 * 1.8] is the double [1800.0]); the walk does not go on past it
    but returns it, since it exceeds [target_size]. *)
Lemma exactly_large_is_selected :
  exists target small large,
    target_size 1000 false = Return target
    /\ stop_size_sm 1000 = Return small
    /\ stop_size_lg 1000 = Return large
    /\ cmp_int 1800 large = Some Eq
    /\ walk_revisions target small large None [revision 1 1800]
       <> walk_revisions target small large None []
    /\ select_revision [revision 2 1000; revision 1 1800] false None
       = Return (Some (revision 1 1800)).
Proof.
  do 3 eexists.
  split; [vm_compute; reflexivity |].
  split; [vm_compute; reflexivity |].
  split; [vm_compute; reflexivity |].
  split; [vm_compute; reflexivity |].
  split; [vm_compute; discriminate | vm_compute; reflexivity].
Qed.

Lemma cmp_int_eq_not_strict (z : Z) (f : float) :
  cmp_int z f = Some Eq -> int_gt z f = false /\ int_lt z f = false.
Proof. intros H. unfold int_gt, int_lt. rewrite H. split; reflexivity. Qed.

(** C5, amended. The comparisons are strict: a size equal to a threshold
    passes neither [>] nor [<] against it. With the thresholds of a latest
    size [n]: a revision exactly at [target_size] or at [stop_size_sm] is
    walked over; a revision exactly at [stop_size_lg] is not stopped by
    the large test and, when [0 < n], is returned by the target test; and
    a non-empty history whose revisions all have the size [n] has no
    match. *)
Theorem equality_is_not_strict
    (n : Z) (has_been_cut : bool) (target small large : float) :
  in_float_range n ->
  target_size n has_been_cut = Return target ->
  stop_size_sm n = Return small ->
  stop_size_lg n = Return large ->
  (forall z f, cmp_int z f = Some Eq -> int_gt z f = false /\ int_lt z f = false)
  /\ (forall cutoff r older,
        in_float_range (size r) -> predates cutoff r = Return false ->
        cmp_int (size r) target = Some Eq \/ cmp_int (size r) small = Some Eq ->
        walk_revisions target small large cutoff (r :: older)
        = walk_revisions target small large cutoff older)
  /\ (forall cutoff r older,
        in_float_range (size r) -> predates cutoff r = Return false ->
        cmp_int (size r) large = Some Eq -> 0 < n ->
        walk_revisions target small large cutoff (r :: older)
        = Return (Some r))
  /\ (forall entries cutoff,
        offset_free cutoff ->
        entries <> [] -> (forall r, In r entries -> size r = n) ->
        select_revision entries has_been_cut cutoff = Return None).
Proof.
  intros Hn Ht Hs Hl.
  assert (Hord : ordered_thresholds n target small large)
    by (apply (computed_thresholds_ordered _ has_been_cut); assumption).
  split; [exact cmp_int_eq_not_strict |].
  split; [| split].
  - intros cutoff r older Hr Hp Heq.
    apply walk_continues; [assumption |].
    assert (Hcases : int_gt (size r) target = false
                     /\ int_lt (size r) small = false).
    { destruct Heq as [Heq | Heq];
        destruct (cmp_int_eq_not_strict _ _ Heq) as [Hgt Hlt].
      - split; [assumption |].
        apply (small_below _ _ _ _ Hord).
        destruct (Z.le_gt_cases n (size r)) as [| Hless]; [assumption |].
        rewrite (target_above_strict _ _ _ _ Hord _ Hless) in Hlt.
        discriminate.
      - split; [| assumption].
        apply (target_above _ _ _ _ Hord).
        destruct (Z.le_gt_cases (size r) n) as [| Hmore]; [assumption |].
        rewrite (small_below_strict _ _ _ _ Hord _ Hmore) in Hgt.
        discriminate. }
    destruct Hcases as [Hgt Hlt].
    repeat split; try assumption.
    destruct (int_gt (size r) large) eqn:El; [| reflexivity].
    rewrite (large_above_target _ _ _ _ Hord _ El) in Hgt. discriminate.
  - intros cutoff r older Hr Hp Heq Hpos.
    destruct (cmp_int_eq_not_strict _ _ Heq) as [Hgt Hlt].
    cbn [walk_revisions]. rewrite Hp.
    destruct (bytes_to_human_str_returns _ Hr) as (s & Es).
    rewrite Es. cbn [obind]. rewrite Hgt.
    destruct (int_gt (size r) target) eqn:Et; [reflexivity |].
    rewrite (large_above_target_strict _ _ _ _ Hord Hpos _ Et) in Hlt.
    discriminate.
  - intros entries cutoff Hfree Hne Hsize.
    destruct (sorted_newest_first entries) as [| latest older] eqn:Es.
    { destruct entries as [| e entries]; [contradiction |].
      assert (Hin : In e (sorted_newest_first (e :: entries)))
        by (apply stable_sort_In; left; reflexivity).
      rewrite Es in Hin. contradiction. }
    assert (Hall : forall r, In r (latest :: older) -> size r = n).
    { intros r Hin. apply Hsize. rewrite <- Es in Hin.
      apply stable_sort_In in Hin. exact Hin. }
    assert (Hlatest : size latest = n) by (apply Hall; left; reflexivity).
    rewrite <- Hlatest in Hn, Ht, Hs, Hl.
    rewrite (select_revision_walk _ latest older _ _ target small large)
      by assumption.
    apply (walk_same_size n);
      [assumption | rewrite <- Hlatest; assumption | assumption |].
    apply Forall_forall. intros r Hin. apply Hall. right. exact Hin.
Qed.

Lemma equality_is_not_strict_witness :
  select_revision [revision 3 1000; revision 2 1000; revision 1 1000] true None
  = Return None.
Proof.
  eapply (equality_is_not_strict 1000 true).
  - unfold in_float_range. lia.
  - vm_compute. reflexivity.
  - vm_compute. reflexivity.
  - vm_compute. reflexivity.
  - exact I.
  - discriminate.
  - intros r [<- | [<- | [<- | []]]]; reflexivity.
Defined.

End SelectorClaims.

Section EmptyHistory.

Import PyFloat.

Lemma obind_overflow {A B} (o : outcome A) (k : A -> outcome B) :
  raises_only_overflow o -> (forall a, raises_only_overflow (k a)) ->
  raises_only_overflow (obind o k).
Proof. destruct o; cbn; auto. Qed.

Lemma of_int_overflow (n : Z) : raises_only_overflow (of_int n).
Proof.
  unfold of_int. destruct (binary_normalize prec emax n 0 false); cbn; auto.
Qed.

Lemma int_mul_overflow (n : Z) (c : float) : raises_only_overflow (int_mul n c).
Proof.
  unfold int_mul. pose proof (of_int_overflow n) as H.
  destruct (of_int n); cbn in *; auto.
Qed.

Lemma div_int_overflow (x : float) (n : Z) : raises_only_overflow (div_int x n).
Proof.
  unfold div_int. pose proof (of_int_overflow n) as H.
  destruct (of_int n); cbn in *; auto.
Qed.

Lemma bytes_to_human_str_overflow (n : Z) :
  raises_only_overflow (bytes_to_human_str n).
Proof.
  unfold bytes_to_human_str.
  repeat match goal with
         | |- context [if ?b then _ else _] => destruct b
         end;
    repeat (apply obind_overflow;
            [first [apply of_int_overflow | apply div_int_overflow] | intros ?]);
    exact I.
Qed.

Lemma overflow_or_type {A} (o : outcome A) :
  raises_only_overflow o -> raises_overflow_or_type o.
Proof. destruct o; cbn; auto. Qed.

Lemma obind_overflow_or_type {A B} (o : outcome A) (k : A -> outcome B) :
  raises_overflow_or_type o -> (forall a, raises_overflow_or_type (k a)) ->
  raises_overflow_or_type (obind o k).
Proof. destruct o; cbn; auto. Qed.

Lemma predates_type (cutoff : option datetime) (r : FileMetadata) :
  raises_overflow_or_type (predates cutoff r).
Proof. destruct cutoff as [[t | t utcoffset] |]; cbn; auto. Qed.

Lemma walk_overflow_or_type (target small large : float)
    (cutoff : option datetime) (revisions : list FileMetadata) :
  raises_overflow_or_type (walk_revisions target small large cutoff revisions).
Proof.
  induction revisions as [| r older IH]; cbn [walk_revisions]; [exact I |].
  apply obind_overflow_or_type; [apply predates_type | intros [|]; [exact I |]].
  apply obind_overflow_or_type;
    [apply overflow_or_type, bytes_to_human_str_overflow | intros _].
  repeat match goal with
         | |- context [if ?b then _ else _] => destruct b
         end; try exact I; exact IH.
Qed.

(** C10. The selector reads the size of the first revision before
    anything else: on an empty list of entries it raises [IndexError]
    instead of returning no match, whatever the flag and the cutoff, and
    so does [find_precut_revision] when the remote service lists no
    revision; on a list with at least one entry it never raises
    [IndexError]. *)
Theorem empty_history_raises (has_been_cut : bool) (cutoff : option datetime) :
  select_revision [] has_been_cut cutoff = Raise IndexError
  /\ (forall (St : Type) (restore : string -> string -> St -> St * outcome unit)
             (delete : string -> St -> St * outcome unit)
             (path : string) (w : World St),
        snd (find_precut_revision
               {| files_list_revisions := fun _ _ s => (s, Return []);
                  files_restore := restore;
                  files_delete_v2 := delete |}
               path has_been_cut cutoff w)
        = Raise IndexError)
  /\ (forall e entries,
        select_revision (e :: entries) has_been_cut cutoff <> Raise IndexError).
Proof.
  split; [reflexivity |]. split; [reflexivity |].
  intros e entries.
  assert (H : raises_overflow_or_type
                (select_revision (e :: entries) has_been_cut cutoff)).
  { unfold select_revision.
    destruct (sorted_newest_first (e :: entries)) as [| latest older] eqn:Es.
    { assert (Hin : In e (sorted_newest_first (e :: entries)))
        by (apply stable_sort_In; left; reflexivity).
      rewrite Es in Hin. contradiction. }
    apply obind_overflow_or_type;
      [apply overflow_or_type, bytes_to_human_str_overflow | intros _].
    apply obind_overflow_or_type;
      [apply overflow_or_type; unfold target_size; destruct has_been_cut;
       apply int_mul_overflow
      | intros target].
    apply obind_overflow_or_type;
      [apply overflow_or_type, int_mul_overflow | intros small].
    apply obind_overflow_or_type;
      [apply overflow_or_type, int_mul_overflow | intros large].
    apply walk_overflow_or_type. }
  intros E. rewrite E in H. cbn in H. destruct H; discriminate.
Qed.

End EmptyHistory.

(** ** The file classifier *)

Section ClassifierClaims.

Import PyStr.

Lemma final_extension_endswith (p e : string) :
  final_extension e = None ->
  endswith p ("." ++ e) = true <-> final_extension p = Some e.
Proof.
  intros He. induction p as [| c p IH]; cbn [endswith final_extension].
  - cbn. split; discriminate.
  - change ("." ++ e) with (String "." e) in *.
    cbn [String.eqb].
    destruct (final_extension p) as [x |] eqn:Ex.
    + rewrite orb_true_iff, IH.
      split; [| intros H; right; exact H].
      intros [H | H]; [| exact H].
      apply andb_prop in H. destruct H as [_ H].
      apply String.eqb_eq in H. subst p. congruence.
    + assert (Hp : endswith p (String "." e) = false).
      { destruct (endswith p (String "." e)); [| reflexivity].
        destruct IH as [IH _]. discriminate (IH eq_refl). }
      rewrite Hp, orb_false_r. unfold is_dot.
      destruct (Ascii.eqb_spec c "."); cbn [andb].
      * rewrite String.eqb_eq. split; [intros -> | intros [= ->]]; reflexivity.
      * split; discriminate.
Qed.

Lemma is_video_file_spec (p : string) :
  is_video_file p = true
  <-> recognized_extension p /\ startswith (basename p) "._" = false.
Proof.
  unfold is_video_file, recognized_extension.
  destruct (startswith (basename p) "._").
  - split; [discriminate | intros [_ H]; discriminate].
  - rewrite Z.ltb_lt. split.
    + intros H. split; [| reflexivity].
      destruct (filter (fun e => endswith p ("." ++ e)) VIDEO_EXTENSIONS)
        as [| e l] eqn:Ef; [cbn in H; lia |].
      assert (Hin : In e (filter (fun e => endswith p ("." ++ e)) VIDEO_EXTENSIONS))
        by (rewrite Ef; left; reflexivity).
      apply filter_In in Hin. destruct Hin as [Hin He].
      exists e. split; [exact Hin |].
      apply final_extension_endswith; [| exact He].
      cbn in Hin. intuition (subst; reflexivity).
    + intros [(e & Hin & He) _].
      assert (Hf : In e (filter (fun e => endswith p ("." ++ e)) VIDEO_EXTENSIONS)).
      { apply filter_In. split; [exact Hin |].
        apply final_extension_endswith; [| exact He].
        cbn in Hin. intuition (subst; reflexivity). }
      destruct (filter (fun e => endswith p ("." ++ e)) VIDEO_EXTENSIONS);
        [contradiction | cbn [List.length]; lia].
Qed.

Lemma metadata_file_is_hidden (b : string) :
  startswith b "." = false -> startswith b "._" = false.
Proof.
  unfold startswith. destruct b as [| c b]; [reflexivity |].
  cbn [String.prefix]. destruct (ascii_dec "." c); [| reflexivity].
  destruct b; discriminate.
Qed.

(** C6, as stated, fails for a file argument: a hidden video that is
    passed directly is yielded, although its base name begins with ["."]. *)
Lemma hidden_file_argument_is_yielded :
  generate_files example_host ["/videos/.trailer.mkv"] = ["/videos/.trailer.mkv"]
  /\ recognized_extension "/videos/.trailer.mkv"
  /\ startswith (basename "/videos/.trailer.mkv") "." = true.
Proof.
  split; [reflexivity |]. split; [| reflexivity].
  exists "mkv". split; [left; reflexivity | reflexivity].
Qed.

(** C6, amended. [is_video_file] holds of the paths whose final extension
    is one of [mkv], [ts], [mp4], [mov], as written, and whose base name
    does not begin with ["._"]. For an argument [media_path],
    [generate_files] yields its absolute path when it is a file that
    [is_video_file] accepts, hidden or not; and it yields a file found by
    the walk below it when its final extension is recognized and its base
    name does not begin with ["."]. It yields nothing else. *)
Theorem video_candidates (host : Host) (media_path x : string) :
  (is_video_file x = true
   <-> recognized_extension x /\ startswith (basename x) "._" = false)
  /\ (In x (generate_for host media_path)
      <-> (isfile host media_path = true
           /\ recognized_extension media_path
           /\ startswith (basename media_path) "._" = false
           /\ x = abspath host media_path)
          \/ (exists root dirs files file,
                In (root, dirs, files) (walk host media_path)
                /\ In file files
                /\ x = abspath host (join root file)
                /\ recognized_extension x
                /\ startswith (basename x) "." = false)).
Proof.
  split; [apply is_video_file_spec |].
  unfold generate_for. rewrite in_app_iff, in_flat_map.
  split.
  - intros [H | H].
    + left. destruct (isfile host media_path); [| contradiction].
      destruct (is_video_file media_path) eqn:Ev; [| contradiction].
      apply is_video_file_spec in Ev. destruct Ev as [He Hm].
      destruct H as [<- | []]. auto.
    + right. destruct H as ([[root dirs] files] & Hw & Hx).
      unfold walked_videos in Hx. apply filter_In in Hx.
      destruct Hx as [Hx Hc]. apply in_map_iff in Hx.
      destruct Hx as (file & <- & Hfile). apply stable_sort_In in Hfile.
      apply andb_prop in Hc. destruct Hc as [Hh Hv].
      apply negb_true_iff in Hh. apply is_video_file_spec in Hv.
      exists root, dirs, files, file. tauto.
  - intros [(Hf & He & Hm & ->) | (root & dirs & files & file & Hw & Hfile & -> & He & Hh)].
    + left. rewrite Hf.
      assert (Ev : is_video_file media_path = true)
        by (apply is_video_file_spec; auto).
      rewrite Ev. left. reflexivity.
    + right. exists (root, dirs, files). split; [exact Hw |].
      unfold walked_videos. apply filter_In. split.
      * apply in_map_iff. exists file. split; [reflexivity |].
        apply stable_sort_In. exact Hfile.
      * rewrite Hh. cbn [negb andb]. apply is_video_file_spec.
        split; [exact He | apply metadata_file_is_hidden; exact Hh].
Qed.

End ClassifierClaims.

(** ** The remote path *)

Section RemotePathClaims.

Import PyStr.

Local Open Scope string_scope.

Lemma prefix_app (old rest : string) : String.prefix old (old ++ rest) = true.
Proof.
  induction old as [| c old IH]; cbn [String.append String.prefix].
  - destruct rest; reflexivity.
  - destruct (ascii_dec c c); [exact IH | contradiction].
Qed.

Lemma replace_from_skip (a s old new : string) :
  replace_from (String.length a) (a ++ s) old new = replace_from O s old new.
Proof.
  induction a as [| c a IH]; cbn [String.length String.append]; [reflexivity |].
  cbn [replace_from]. exact IH.
Qed.

Lemma replace_from_leading (old rest new : string) :
  old <> "" ->
  replace_from O (old ++ rest) old new = new ++ replace_from O rest old new.
Proof.
  intros Hne. destruct old as [| c old]; [contradiction |].
  change (String c old ++ rest) with (String c (old ++ rest)).
  cbn [replace_from].
  change (String c (old ++ rest)) with (String c old ++ rest).
  rewrite prefix_app. f_equal.
  cbn [String.length]. rewrite Nat.sub_succ, Nat.sub_0_r.
  apply replace_from_skip.
Qed.

Lemma replace_from_absent (s old new : string) :
  old <> "" -> contains old s = false -> replace_from O s old new = s.
Proof.
  intros Hne. induction s as [| c s IH]; [reflexivity |].
  cbn [contains]. rewrite orb_false_iff. intros [Hp Hc].
  cbn [replace_from]. rewrite Hp, (IH Hc). reflexivity.
Qed.

Lemma replace_nonempty (s old new : string) :
  old <> "" -> replace s old new = replace_from O s old new.
Proof. destruct old; [contradiction | reflexivity]. Qed.

(** C7. The derivation is not the substitution of the leading media
    root alone: [str.replace] rewrites every occurrence. With the media
    root [/srv/tv], the path [/srv/tv/archive/srv/tv-guide/a.mkv] holds
    the root a second time; both occurrences become [/Media], and the
    remote path is not [/Media] followed by the unchanged remainder. *)
Lemma inner_media_root_is_replaced :
  remote_path "/srv/tv" "/srv/tv/archive/srv/tv-guide/a.mkv"
  = "/Media/archive/Media-guide/a.mkv"
  /\ remote_path "/srv/tv" "/srv/tv/archive/srv/tv-guide/a.mkv"
     <> "/Media" ++ "/archive/srv/tv-guide/a.mkv".
Proof. split; [reflexivity | discriminate]. Qed.

End RemotePathClaims.

(** ** The restore loop *)

Section LoopFacts.

Context {St : Type}.
Variable host : Host.
Variable dbx : Dropbox St.

Local Open Scope list_scope.

Lemma remote_call_eq {A} (c : call) (op : St -> St * outcome A) (w : World St) :
  remote_call c op w
  = ({| remote := fst (op (remote w)); calls := calls w ++ [c] |},
     snd (op (remote w))).
Proof. unfold remote_call. destruct (op (remote w)); reflexivity. Qed.

(** [try: call except ApiError: pass] never raises when the call fails
    with [ApiError] only. *)
Lemma suppressed_call (c : call) (op : St -> St * outcome unit) (w : World St) :
  answer_or_ApiError (snd (op (remote w))) ->
  try_except_ApiError (remote_call c op) (fun _ => ret tt) w
  = ({| remote := fst (op (remote w)); calls := calls w ++ [c] |}, Return tt).
Proof.
  intros H. unfold try_except_ApiError. rewrite remote_call_eq.
  destruct (snd (op (remote w))) as [[] | e]; [reflexivity |].
  destruct H as [detail ->]. reflexivity.
Qed.

Lemma restore_and_clean_spec (path : string) (r : FileMetadata) (w : World St) :
  api_errors_only dbx ->
  exists w',
    restore_and_clean dbx path r w = (w', Return tt)
    /\ calls w'
       = calls w ++
         Restore path (rev r) ::
         match snd (files_restore dbx path (rev r) (remote w)) with
         | Return _ => [DeleteV2 (replace_extension path "edl");
                        DeleteV2 (replace_extension path "bak.edl")]
         | Raise _ => []
         end.
Proof.
  intros Hapi. unfold restore_and_clean.
  unfold try_except_ApiError at 1. unfold bind at 1.
  rewrite remote_call_eq.
  destruct (Hapi (remote w) path) as [Hrestore _].
  specialize (Hrestore (rev r)).
  destruct (snd (files_restore dbx path (rev r) (remote w))) as [[] | e].
  - unfold bind at 1. rewrite suppressed_call
      by (cbn [remote]; apply Hapi).
    rewrite suppressed_call by (cbn [remote]; apply Hapi).
    eexists. split; [reflexivity |].
    cbn [calls]. rewrite <- !app_assoc. reflexivity.
  - destruct Hrestore as [detail ->].
    eexists. split; reflexivity.
Qed.

Lemma read_has_been_cut_returns (video_filepath : string) :
  files_readable host ->
  exists b, read_has_been_cut host video_filepath = Return b.
Proof.
  intros Hread. unfold read_has_been_cut.
  destruct (negb (edl_for_video host video_filepath =? "")%string);
    cbn [andb]; [| eexists; reflexivity].
  destruct (isfile host (edl_for_video host video_filepath)) eqn:Ef;
    [| eexists; reflexivity].
  destruct (Hread _ Ef) as (text & ->). eexists. reflexivity.
Qed.

(** On a history that is not empty and whose sizes are in range, with a
    cutoff that can be compared, the selector returns, and the size of
    what it returns was converted. *)
Lemma select_revision_returns (entries : list FileMetadata)
    (has_been_cut : bool) (cutoff : option datetime) :
  offset_free cutoff ->
  entries <> [] -> sizes_in_range entries ->
  exists u,
    select_revision entries has_been_cut cutoff = Return u
    /\ forall r, u = Some r -> exists s, bytes_to_human_str (size r) = Return s.
Proof.
  intros Hfree Hne Hrange.
  destruct (sorted_newest_first entries) as [| latest older] eqn:Es.
  { destruct entries as [| e entries]; [contradiction |].
    assert (Hin : In e (sorted_newest_first (e :: entries)))
      by (apply stable_sort_In; left; reflexivity).
    rewrite Es in Hin. contradiction. }
  assert (Hsorted : sizes_in_range (latest :: older)).
  { apply Forall_forall. intros r Hin. rewrite <- Es in Hin.
    apply stable_sort_In in Hin.
    exact (proj1 (Forall_forall _ _) Hrange r Hin). }
  inversion Hsorted as [| ? ? Hlatest Holder]; subst.
  destruct (FloatFacts.thresholds_ordered (size latest) has_been_cut Hlatest)
    as (target & small & large & Et & Esm & Elg & _).
  rewrite (select_revision_walk _ latest older _ _ target small large)
    by assumption.
  destruct (walk_returns target small large cutoff older Hfree Holder)
    as (u & Eu).
  exists u. split; [exact Eu |].
  intros r ->. apply walk_some in Eu. tauto.
Qed.

(** One file: the history of its remote path is listed once, and the body
    of the loop returns, in a dry run or when restoring and deleting fail
    with [ApiError] only. *)
Lemma process_file_spec (dry : bool) (base : string) (cutoff : option datetime)
    (f : string) (w : World St) :
  offset_free cutoff ->
  files_readable host -> lists_histories dbx ->
  dry = true \/ api_errors_only dbx ->
  exists w',
    process_file host dbx dry base cutoff f w = (w', Return tt)
    /\ filter is_list_call (calls w')
       = filter is_list_call (calls w) ++ [ListRevisions (remote_path base f) 30].
Proof.
  intros Hfree Hread Hlist Hmode. unfold process_file.
  destruct (read_has_been_cut_returns f Hread) as (b & Eb).
  unfold bind at 1. unfold lift at 1. rewrite Eb.
  unfold bind at 1. unfold find_precut_revision.
  unfold bind at 1. rewrite remote_call_eq.
  destruct (Hlist (remote w) (remote_path base f)) as (entries & El & Hne & Hr).
  rewrite El.
  destruct (select_revision_returns entries b cutoff Hfree Hne Hr)
    as (u & Eu & Hu).
  unfold lift at 1. rewrite Eu.
  set (w1 := {| remote := fst (files_list_revisions dbx (remote_path base f) 30 (remote w));
                calls := calls w ++ [ListRevisions (remote_path base f) 30] |}).
  assert (Hw1 : filter is_list_call (calls w1)
                = filter is_list_call (calls w) ++ [ListRevisions (remote_path base f) 30]).
  { unfold w1. cbn [calls]. rewrite filter_app. reflexivity. }
  destruct u as [r |]; [| exists w1; split; [reflexivity | exact Hw1]].
  destruct (Hu r eq_refl) as (s & Es).
  unfold bind at 1. unfold lift at 1. rewrite Es.
  destruct dry; [exists w1; split; [reflexivity | exact Hw1] |].
  destruct Hmode as [Hdry | Hapi]; [discriminate |].
  destruct (restore_and_clean_spec (remote_path base f) r w1 Hapi)
    as (w2 & Hret & Hcalls).
  exists w2. split; [exact Hret |].
  rewrite Hcalls, filter_app, Hw1.
  replace (filter is_list_call (Restore _ _ :: _)) with (@nil call).
  - rewrite app_nil_r. reflexivity.
  - cbn [filter is_list_call].
    destruct (snd (files_restore dbx (remote_path base f) (rev r) (remote w1)));
      reflexivity.
Qed.

Lemma for_each_spec (body : string -> M St unit) (path_of : string -> string)
    (files : list string) :
  (forall f w,
     exists w',
       body f w = (w', Return tt)
       /\ filter is_list_call (calls w')
          = filter is_list_call (calls w) ++ [ListRevisions (path_of f) 30]) ->
  forall w,
    exists w',
      for_each files body w = (w', Return tt)
      /\ filter is_list_call (calls w')
         = filter is_list_call (calls w)
           ++ map (fun f => ListRevisions (path_of f) 30) files.
Proof.
  intros Hbody. induction files as [| f files IH]; intros w.
  - exists w. cbn [for_each ret map]. rewrite app_nil_r. split; reflexivity.
  - cbn [for_each]. unfold bind.
    destruct (Hbody f w) as (w1 & -> & Hcalls).
    destruct (IH w1) as (w2 & Hret & Hcalls2).
    exists w2. split; [exact Hret |].
    rewrite Hcalls2, Hcalls, <- app_assoc. reflexivity.
Qed.

Lemma reads_only_refl (w : World St) : reads_only dbx w w.
Proof. split; reflexivity. Qed.

Lemma reads_only_trans (w1 w2 w3 : World St) :
  reads_only dbx w1 w2 -> reads_only dbx w2 w3 -> reads_only dbx w1 w3.
Proof.
  intros [Hc1 Hr1] [Hc2 Hr2]. split.
  - rewrite Hc2. exact Hc1.
  - intros H. rewrite (Hr2 H). exact (Hr1 H).
Qed.

(** In a dry run the body of the loop only lists, however it ends. *)
Lemma process_file_dry (base : string) (cutoff : option datetime) (f : string)
    (w : World St) :
  reads_only dbx w (fst (process_file host dbx true base cutoff f w)).
Proof.
  unfold process_file.
  unfold bind at 1. unfold lift at 1.
  destruct (read_has_been_cut host f) as [b | e]; [| apply reads_only_refl].
  unfold bind at 1. unfold find_precut_revision.
  unfold bind at 1. rewrite remote_call_eq.
  set (w1 := {| remote := fst (files_list_revisions dbx (remote_path base f) 30 (remote w));
                calls := calls w ++ [ListRevisions (remote_path base f) 30] |}).
  assert (Hw1 : reads_only dbx w w1).
  { split; unfold w1; cbn [calls remote].
    - rewrite filter_app. cbn [filter is_mutation]. apply app_nil_r.
    - intros H. apply H. }
  destruct (snd (files_list_revisions dbx (remote_path base f) 30 (remote w)))
    as [entries | e]; [| exact Hw1].
  unfold lift at 1.
  destruct (select_revision entries b cutoff) as [[r |] | e]; try exact Hw1.
  unfold bind at 1. unfold lift at 1.
  destruct (bytes_to_human_str (size r)); exact Hw1.
Qed.

Lemma for_each_reads_only (body : string -> M St unit) (files : list string) :
  (forall f w, reads_only dbx w (fst (body f w))) ->
  forall w, reads_only dbx w (fst (for_each files body w)).
Proof.
  intros Hbody. induction files as [| f files IH]; intros w.
  - apply reads_only_refl.
  - cbn [for_each]. unfold bind.
    pose proof (Hbody f w) as H1.
    destruct (body f w) as [w1 [[] | e]]; cbn [fst] in *; [| exact H1].
    eapply reads_only_trans; [exact H1 | apply IH].
Qed.

End LoopFacts.

Section LoopClaims.

Local Open Scope list_scope.

Lemma configured_run {St} (host : Host) (dbx : Dropbox St)
    (opts : list (string * string)) (args : list string) (o : Options)
    (base : string) (w : World St) :
  read_options host opts initial_options = Return (Some o) ->
  configured host args o base ->
  comcut_restore_cli host dbx (Some (opts, args)) w
  = (_ <- for_each (generate_files host args)
            (process_file host dbx (dry_run o) base (no_older_than_time o)) ;;
     ret 0)%remote w.
Proof.
  intros Hopts (Hargs & Hbase & Hne & Htoken).
  unfold comcut_restore_cli. unfold bind at 1. unfold lift at 1.
  rewrite Hopts.
  destruct args as [| a args]; [contradiction |].
  cbn [List.length Nat.eqb].
  rewrite Hbase, Htoken. cbn [falsy].
  apply String.eqb_neq in Hne. rewrite Hne. reflexivity.
Qed.

(** A configured run over readable files and listable histories, with a
    cutoff that can be compared, lists every candidate in turn and returns
    0, in a dry run or when restoring and deleting fail with [ApiError]
    only. *)
Lemma run_completes {St} (host : Host) (dbx : Dropbox St)
    (opts : list (string * string)) (args : list string) (o : Options)
    (base : string) (w : World St) :
  read_options host opts initial_options = Return (Some o) ->
  configured host args o base ->
  offset_free (no_older_than_time o) ->
  files_readable host -> lists_histories dbx ->
  dry_run o = true \/ api_errors_only dbx ->
  exists w',
    comcut_restore_cli host dbx (Some (opts, args)) w = (w', Return 0)
    /\ filter is_list_call (calls w')
       = filter is_list_call (calls w)
         ++ map (fun f => ListRevisions (remote_path base f) 30)
              (generate_files host args).
Proof.
  intros Hopts Hconf Hfree Hread Hlist Hmode.
  rewrite (configured_run host dbx opts args o base w Hopts Hconf).
  unfold bind.
  destruct (for_each_spec
              (process_file host dbx (dry_run o) base (no_older_than_time o))
              (remote_path base) (generate_files host args)
              (fun f w0 => process_file_spec host dbx (dry_run o) base
                             (no_older_than_time o) f w0 Hfree Hread Hlist Hmode)
              w)
    as (w' & -> & Hcalls).
  exists w'. split; [reflexivity | exact Hcalls].
Qed.

Lemma example_host_readable : files_readable example_host.
Proof.
  intros p Hp. cbn [read_text example_host].
  destruct (String.eqb_spec p "/videos/b.edl"); [eexists; reflexivity |].
  destruct (String.eqb_spec p "/videos/missing") as [-> |];
    [discriminate Hp | eexists; reflexivity].
Qed.

Lemma example_dbx_lists : lists_histories example_dbx.
Proof.
  intros s path. exists (example_history path).
  split; [reflexivity |].
  unfold example_history.
  destruct (String.eqb path "/Media/b.mkv");
    [| destruct (String.eqb path "/Media/a.ts")];
    (split; [discriminate |]);
    repeat constructor; unfold in_float_range; cbn [size revision]; lia.
Qed.

Lemma example_dbx_api_errors_only : api_errors_only example_dbx.
Proof.
  intros s path. cbn [files_restore files_delete_v2 example_dbx]. split.
  - intros _. destruct (String.eqb path "/Media/a.ts"); cbn; eauto.
  - destruct (PyStr.endswith path ".bak.edl"); cbn; eauto.
Qed.

(** C8. When restoring and deleting fail with [ApiError] only, the block
    that restores a selected revision returns normally whatever fails:
    after a restore that answered, both companion paths are deleted in
    turn, whether or not the first deletion failed; and a configured run,
    with a cutoff that can be compared if it has one, lists the history of
    every candidate in turn and returns 0. *)
Theorem api_errors_do_not_stop_the_batch {St} (host : Host) (dbx : Dropbox St)
    (opts : list (string * string)) (args : list string) (o : Options)
    (base : string) (w : World St) :
  read_options host opts initial_options = Return (Some o) ->
  configured host args o base ->
  offset_free (no_older_than_time o) ->
  files_readable host -> lists_histories dbx ->
  api_errors_only dbx ->
  (forall path r w0,
     exists w',
       restore_and_clean dbx path r w0 = (w', Return tt)
       /\ calls w'
          = calls w0 ++
            Restore path (rev r) ::
            match snd (files_restore dbx path (rev r) (remote w0)) with
            | Return _ => [DeleteV2 (replace_extension path "edl");
                           DeleteV2 (replace_extension path "bak.edl")]
            | Raise _ => []
            end)
  /\ exists w',
       comcut_restore_cli host dbx (Some (opts, args)) w = (w', Return 0)
       /\ filter is_list_call (calls w')
          = filter is_list_call (calls w)
            ++ map (fun f => ListRevisions (remote_path base f) 30)
                 (generate_files host args).
Proof.
  intros Hopts Hconf Hfree Hread Hlist Hapi. split.
  - intros path r w0. apply restore_and_clean_spec. exact Hapi.
  - apply (run_completes host dbx opts args o base w); auto.
Qed.

Lemma api_errors_do_not_stop_the_batch_witness :
  exists w',
    comcut_restore_cli example_host example_dbx
      (Some ([("-d", "/videos/")], ["/videos"])) example_world
    = (w', Return 0)
    /\ filter is_list_call (calls w')
       = [ListRevisions "/Media/a.ts" 30; ListRevisions "/Media/b.mkv" 30].
Proof.
  apply (api_errors_do_not_stop_the_batch example_host example_dbx
           [("-d", "/videos/")] ["/videos"]
           {| dry_run := false; media_base := Some "/videos";
              no_older_than_time := None |}
           "/videos" example_world).
  - reflexivity.
  - repeat split; discriminate.
  - exact I.
  - exact example_host_readable.
  - exact example_dbx_lists.
  - exact example_dbx_api_errors_only.
Defined.

(** C9. In a dry run, however the run ends, no call restores or deletes,
    and the remote state is as it was when listing revisions leaves it so;
    and a configured dry run over readable files and listable histories,
    with a cutoff that can be compared if it has one, lists the history of
    every candidate in turn, so that the selector runs on each, and
    returns 0. *)
Theorem dry_run_changes_nothing {St} (host : Host) (dbx : Dropbox St)
    (opts : list (string * string)) (args : list string) (o : Options)
    (w : World St) :
  read_options host opts initial_options = Return (Some o) ->
  dry_run o = true ->
  reads_only dbx w (fst (comcut_restore_cli host dbx (Some (opts, args)) w))
  /\ (forall base,
        configured host args o base ->
        offset_free (no_older_than_time o) ->
        files_readable host -> lists_histories dbx ->
        exists w',
          comcut_restore_cli host dbx (Some (opts, args)) w = (w', Return 0)
          /\ filter is_list_call (calls w')
             = filter is_list_call (calls w)
               ++ map (fun f => ListRevisions (remote_path base f) 30)
                    (generate_files host args)).
Proof.
  intros Hopts Hdry. split.
  - unfold comcut_restore_cli. unfold bind at 1. unfold lift at 1.
    rewrite Hopts.
    destruct (List.length args =? 0)%nat; [apply reads_only_refl |].
    destruct (falsy (media_base o)); [apply reads_only_refl |].
    destruct (falsy (getenv host "DROPBOX_ACCESS_TOKEN"));
      [apply reads_only_refl |].
    unfold bind. rewrite Hdry.
    pose proof (for_each_reads_only dbx
                  (process_file host dbx true
                     match media_base o with Some b => b | None => ""%string end
                     (no_older_than_time o))
                  (generate_files host args)
                  (fun f w0 => process_file_dry host dbx _ _ f w0) w) as H.
    destruct (for_each (generate_files host args) _ w) as [w1 [[] | e]];
      exact H.
  - intros base Hconf Hfree Hread Hlist.
    apply (run_completes host dbx opts args o base w); auto.
Qed.

Lemma dry_run_changes_nothing_witness :
  reads_only example_dbx example_world
    (fst (comcut_restore_cli example_host example_dbx
            (Some ([("-n", ""); ("-d", "/videos/")],
                   ["/videos"; "/videos/.trailer.mkv"]))
            example_world))
  /\ exists w',
       comcut_restore_cli example_host example_dbx
         (Some ([("-n", ""); ("-d", "/videos/")],
                ["/videos"; "/videos/.trailer.mkv"]))
         example_world
       = (w', Return 0)
       /\ filter is_list_call (calls w')
          = [ListRevisions "/Media/a.ts" 30; ListRevisions "/Media/b.mkv" 30;
             ListRevisions "/Media/.trailer.mkv" 30].
Proof.
  destruct (dry_run_changes_nothing example_host example_dbx
              [("-n", ""); ("-d", "/videos/")]
              ["/videos"; "/videos/.trailer.mkv"]
              {| dry_run := true; media_base := Some "/videos";
                 no_older_than_time := None |}
              example_world eq_refl eq_refl) as [Hframe Hrun].
  split; [exact Hframe |].
  apply (Hrun "/videos").
  - repeat split; discriminate.
  - exact I.
  - exact example_host_readable.
  - exact example_dbx_lists.
Defined.

End LoopClaims.

(** * Further properties *)

(** ** Sorting *)

Section SortFacts.

Context {A : Type}.
Variable before : A -> A -> bool.

Hypothesis may_precede_trans :
  forall x y z,
    may_precede before x y -> may_precede before y z -> may_precede before x z.
Hypothesis before_asym : forall x y, before x y = true -> before y x = false.

Local Open Scope list_scope.

Lemma insert_sorted_perm (x : A) (l : list A) :
  Permutation (insert_sorted before x l) (x :: l).
Proof.
  induction l as [| y l IH]; cbn [insert_sorted]; [reflexivity |].
  destruct (before y x); [| reflexivity].
  rewrite IH. apply perm_swap.
Qed.

Lemma stable_sort_perm (l : list A) : Permutation (stable_sort before l) l.
Proof.
  unfold stable_sort. induction l as [| x l IH]; cbn [fold_right]; [reflexivity |].
  rewrite insert_sorted_perm. constructor. exact IH.
Qed.

Lemma insert_sorted_sorted (x : A) (l : list A) :
  StronglySorted (may_precede before) l ->
  StronglySorted (may_precede before) (insert_sorted before x l).
Proof.
  induction 1 as [| y l Hl IH Hy]; cbn [insert_sorted].
  - repeat constructor.
  - destruct (before y x) eqn:E.
    + constructor; [exact IH |].
      apply Forall_forall. intros z Hz.
      apply (Permutation_in _ (insert_sorted_perm x l)) in Hz.
      destruct Hz as [<- | Hz].
      * apply before_asym. exact E.
      * exact (proj1 (Forall_forall _ _) Hy z Hz).
    + constructor; [constructor; assumption |].
      constructor; [exact E |].
      eapply Forall_impl; [| exact Hy]. intros z Hz.
      exact (may_precede_trans x y z E Hz).
Qed.

Lemma stable_sort_sorted (l : list A) :
  StronglySorted (may_precede before) (stable_sort before l).
Proof.
  unfold stable_sort. induction l as [| x l IH]; cbn [fold_right].
  - constructor.
  - apply insert_sorted_sorted. exact IH.
Qed.

(** Two sorted lists with the same elements are equal when the order can
    tell their elements apart. *)
Lemma sorted_perm_unique (l1 l2 : list A) :
  (forall x y, In x l1 -> In y l1 -> may_precede before x y -> may_precede before y x -> x = y) ->
  StronglySorted (may_precede before) l1 -> StronglySorted (may_precede before) l2 ->
  Permutation l1 l2 -> l1 = l2.
Proof.
  intros Hanti H1. revert l2.
  induction H1 as [| x l1 Hs1 IH Hx]; intros l2 H2 Hp.
  - apply Permutation_nil in Hp. subst. reflexivity.
  - destruct H2 as [| y l2 Hs2 Hy].
    + apply Permutation_sym, Permutation_nil in Hp. discriminate.
    + assert (x = y).
      { assert (Hyin : In y (x :: l1))
          by (apply (Permutation_in _ (Permutation_sym Hp)); left; reflexivity).
        assert (Hxin : In x (y :: l2))
          by (apply (Permutation_in _ Hp); left; reflexivity).
        destruct Hyin as [-> | Hyin]; [reflexivity |].
        destruct Hxin as [-> | Hxin]; [reflexivity |].
        apply Hanti; [left; reflexivity | right; exact Hyin | |].
        - exact (proj1 (Forall_forall _ _) Hx y Hyin).
        - exact (proj1 (Forall_forall _ _) Hy x Hxin). }
      subst y. f_equal.
      apply IH; [| exact Hs2 | exact (Permutation_cons_inv Hp)].
      intros a b Ha Hb. apply Hanti; right; assumption.
Qed.

Lemma stable_sort_perm_invariant (l1 l2 : list A) :
  (forall x y, In x l1 -> In y l1 -> may_precede before x y -> may_precede before y x -> x = y) ->
  Permutation l1 l2 -> stable_sort before l1 = stable_sort before l2.
Proof.
  intros Hanti Hp.
  apply sorted_perm_unique.
  - intros x y Hx Hy. apply Hanti.
    + exact (Permutation_in _ (stable_sort_perm l1) Hx).
    + exact (Permutation_in _ (stable_sort_perm l1) Hy).
  - apply stable_sort_sorted.
  - apply stable_sort_sorted.
  - rewrite (stable_sort_perm l1), (stable_sort_perm l2). exact Hp.
Qed.

End SortFacts.

(** ** More on the revision selector *)

Section SelectorExtras.

Import PyFloat FloatFacts.

Local Open Scope list_scope.

Lemma may_precede_not_older (x y : FileMetadata) :
  may_precede (fun y x => server_modified x <? server_modified y) x y
  <-> not_older x y.
Proof. unfold may_precede, not_older. rewrite Z.ltb_ge. reflexivity. Qed.

Lemma sorted_newest_first_sorted (entries : list FileMetadata) :
  StronglySorted not_older (sorted_newest_first entries).
Proof.
  unfold sorted_newest_first.
  pose proof (stable_sort_sorted
                (fun y x => server_modified x <? server_modified y)) as H.
  assert (Hs : StronglySorted
                 (may_precede (fun y x => server_modified x <? server_modified y))
                 (stable_sort (fun y x => server_modified x <? server_modified y)
                    entries)).
  { apply H.
    - unfold may_precede. intros x y z. rewrite !Z.ltb_ge. lia.
    - intros x y. rewrite Z.ltb_lt, Z.ltb_ge. lia. }
  clear H.
  induction Hs as [| a l Hl IH Ha]; constructor; [exact IH |].
  eapply Forall_impl; [| exact Ha].
  intros b. apply may_precede_not_older.
Qed.

Lemma sorted_newest_first_perm (entries : list FileMetadata) :
  Permutation (sorted_newest_first entries) entries.
Proof. apply stable_sort_perm. Qed.

Lemma distinct_times_injective (l : list FileMetadata) (x y : FileMetadata) :
  NoDup (map server_modified l) -> In x l -> In y l ->
  server_modified x = server_modified y -> x = y.
Proof.
  induction l as [| a l IH]; [contradiction |].
  cbn [map]. intros Hnd Hx Hy Heq.
  inversion Hnd as [| ? ? Hnotin Hnd']; subst.
  destruct Hx as [-> | Hx], Hy as [-> | Hy].
  - reflexivity.
  - exfalso. apply Hnotin. rewrite Heq. apply in_map. exact Hy.
  - exfalso. apply Hnotin. rewrite <- Heq. apply in_map. exact Hx.
  - apply IH; assumption.
Qed.

Lemma sorted_newest_first_perm_invariant (l1 l2 : list FileMetadata) :
  NoDup (map server_modified l1) -> Permutation l1 l2 ->
  sorted_newest_first l1 = sorted_newest_first l2.
Proof.
  intros Hnd Hp. unfold sorted_newest_first.
  apply stable_sort_perm_invariant.
  - unfold may_precede. intros x y z. rewrite !Z.ltb_ge. lia.
  - intros x y. rewrite Z.ltb_lt, Z.ltb_ge. lia.
  - intros x y Hx Hy. unfold may_precede. rewrite !Z.ltb_ge. intros H1 H2.
    apply (distinct_times_injective l1); [assumption .. | lia].
  - exact Hp.
Qed.

Lemma example_permutation {A} (a b c : A) : Permutation [a; b; c] [c; a; b].
Proof.
  apply perm_trans with [a; c; b]; [apply perm_skip, perm_swap | apply perm_swap].
Qed.

(** X1. The revisions the selector walks are the entries it was given,
    each as often as it was listed, ordered newest first. *)
Theorem revisions_are_walked_newest_first (entries : list FileMetadata) :
  StronglySorted not_older (sorted_newest_first entries)
  /\ Permutation (sorted_newest_first entries) entries.
Proof.
  split; [apply sorted_newest_first_sorted | apply sorted_newest_first_perm].
Qed.

(** X2. When the modification times of the entries are pairwise distinct,
    the order in which the remote service lists them does not matter: the
    selector gives the same result on every rearrangement. *)
Theorem selection_ignores_listing_order
    (l1 l2 : list FileMetadata) (has_been_cut : bool) (cutoff : option datetime) :
  NoDup (map server_modified l1) -> Permutation l1 l2 ->
  select_revision l1 has_been_cut cutoff = select_revision l2 has_been_cut cutoff.
Proof.
  intros Hnd Hp. unfold select_revision.
  rewrite (sorted_newest_first_perm_invariant l1 l2 Hnd Hp). reflexivity.
Qed.

Lemma selection_ignores_listing_order_witness :
  select_revision [revision 3 1000; revision 2 1080; revision 1 1150] true None
  = select_revision [revision 1 1150; revision 3 1000; revision 2 1080] true None.
Proof.
  apply selection_ignores_listing_order.
  - repeat constructor; cbn; intuition discriminate.
  - apply example_permutation.
Defined.

(** The large stop is below twice the latest size. *)
Lemma large_below_double (n : Z) (large : float) :
  in_float_range n -> stop_size_lg n = Return large ->
  forall z, int_gt z large = false -> z <= 2 * n.
Proof.
  intros Hn El z Hz. unfold in_float_range in Hn.
  destruct (int_mul_view n 8106479329266893 (-52)) as (f & V & Rf & Cf & Bf);
    [assumption | cbn; lia | lia |].
  unfold stop_size_lg, lit_1_8 in El. rewrite Rf in El.
  injection El as <-.
  unfold int_gt in Hz. rewrite (Cf z) in Hz.
  change (52 - -52) with 104 in Hz.
  destruct (Z.compare_spec (z * 2 ^ 104) V); try discriminate; lia.
Qed.

(** X3. What the selector returns, on sizes in range, is one of the
    entries other than the newest one, not modified before the cutoff,
    strictly larger than the newest entry and at most twice as large. *)
Theorem selected_revision_is_sound
    (entries : list FileMetadata) (has_been_cut : bool) (cutoff : option datetime)
    (r : FileMetadata) :
  sizes_in_range entries ->
  select_revision entries has_been_cut cutoff = Return (Some r) ->
  In r entries
  /\ predates cutoff r = Return false
  /\ exists latest older,
       sorted_newest_first entries = latest :: older
       /\ In r older
       /\ not_older latest r
       /\ size latest < size r <= 2 * size latest.
Proof.
  intros Hrange Hsel.
  destruct (sorted_newest_first entries) as [| latest older] eqn:Es.
  { unfold select_revision in Hsel. rewrite Es in Hsel. discriminate. }
  assert (Hlatest : in_float_range (size latest)).
  { apply (proj1 (Forall_forall _ _) Hrange).
    apply (Permutation_in _ (sorted_newest_first_perm entries)).
    rewrite Es. left. reflexivity. }
  destruct (thresholds_ordered (size latest) has_been_cut Hlatest)
    as (target & small & large & Et & Esm & Elg & Hord).
  rewrite (select_revision_walk _ latest older _ _ target small large) in Hsel
    by assumption.
  apply walk_some in Hsel.
  destruct Hsel as (Hin & Hp & Hl & Ht & _).
  split.
  { apply (Permutation_in _ (sorted_newest_first_perm entries)).
    rewrite Es. right. exact Hin. }
  split; [exact Hp |].
  exists latest, older. split; [reflexivity |]. split; [exact Hin |].
  split.
  - pose proof (sorted_newest_first_sorted entries) as Hs. rewrite Es in Hs.
    inversion Hs as [| ? ? _ Hall]; subst.
    exact (proj1 (Forall_forall _ _) Hall r Hin).
  - split.
    + destruct (Z.lt_ge_cases (size latest) (size r)) as [| Hle]; [assumption |].
      rewrite (target_above _ _ _ _ Hord _ Hle) in Ht. discriminate.
    + exact (large_below_double _ _ Hlatest Elg _ Hl).
Qed.

Lemma selected_revision_is_sound_witness :
  In (revision 2 1080) [revision 1 1150; revision 3 1000; revision 2 1080]
  /\ predates (Some (Naive 2)) (revision 2 1080) = Return false
  /\ exists latest older,
       sorted_newest_first [revision 1 1150; revision 3 1000; revision 2 1080]
       = latest :: older
       /\ In (revision 2 1080) older
       /\ not_older latest (revision 2 1080)
       /\ size latest < size (revision 2 1080) <= 2 * size latest.
Proof.
  apply (selected_revision_is_sound
           [revision 1 1150; revision 3 1000; revision 2 1080] true
           (Some (Naive 2))).
  - repeat constructor; unfold in_float_range; cbn [size revision]; lia.
  - vm_compute. reflexivity.
Defined.

Lemma walk_without_cutoff (target small large : float) (t : datetime)
    (revisions : list FileMetadata) (r : FileMetadata) :
  walk_revisions target small large (Some t) revisions = Return (Some r) ->
  walk_revisions target small large None revisions = Return (Some r).
Proof.
  induction revisions as [| x older IH]; cbn [walk_revisions]; [discriminate |].
  destruct (predates (Some t) x) as [[|] |]; cbn [predates obind];
    try discriminate.
  destruct (bytes_to_human_str (size x)); cbn [obind]; [| discriminate].
  destruct (int_gt (size x) large); [discriminate |].
  destruct (int_gt (size x) target); [auto |].
  destruct (int_lt (size x) small); [discriminate | exact IH].
Qed.

(** X4. A cutoff only removes matches: what the selector returns with a
    cutoff, it returns without one. *)
Theorem cutoff_only_removes_matches
    (entries : list FileMetadata) (has_been_cut : bool) (t : datetime)
    (r : FileMetadata) :
  select_revision entries has_been_cut (Some t) = Return (Some r) ->
  select_revision entries has_been_cut None = Return (Some r).
Proof.
  unfold select_revision.
  destruct (sorted_newest_first entries) as [| latest older]; [discriminate |].
  destruct (bytes_to_human_str (size latest)); cbn [obind]; [| discriminate].
  destruct (target_size (size latest) has_been_cut); cbn [obind]; [| discriminate].
  destruct (stop_size_sm (size latest)); cbn [obind]; [| discriminate].
  destruct (stop_size_lg (size latest)); cbn [obind]; [| discriminate].
  apply walk_without_cutoff.
Qed.

Lemma cutoff_only_removes_matches_witness :
  select_revision [revision 30 1000; revision 20 1150; revision 10 1200]
    false None
  = Return (Some (revision 20 1150)).
Proof.
  apply (cutoff_only_removes_matches _ false (Naive 15)).
  vm_compute. reflexivity.
Defined.

(** X5. A history with the current revision alone has no match. *)
Theorem single_revision_has_no_match
    (e : FileMetadata) (has_been_cut : bool) (cutoff : option datetime) :
  in_float_range (size e) ->
  select_revision [e] has_been_cut cutoff = Return None.
Proof.
  intros He.
  destruct (thresholds_ordered (size e) has_been_cut He)
    as (target & small & large & Et & Esm & Elg & _).
  rewrite (select_revision_walk [e] e [] _ _ target small large)
    by (assumption || reflexivity).
  reflexivity.
Qed.

Lemma single_revision_has_no_match_witness :
  select_revision [revision 1 123456789] true (Some (Naive 5)) = Return None.
Proof.
  apply single_revision_has_no_match.
  unfold in_float_range. cbn [size revision]. lia.
Defined.

(** X6. For a latest size in range the three thresholds are computed
    without error and, rounding included, are ordered around it:
    [stop_size_sm <= latest_size <= target_size <= stop_size_lg] as far as
    integer sizes can tell. No size is both below [stop_size_sm] and above
    [target_size]. *)
Theorem thresholds_are_ordered (n : Z) (has_been_cut : bool) :
  in_float_range n ->
  exists target small large,
    target_size n has_been_cut = Return target
    /\ stop_size_sm n = Return small
    /\ stop_size_lg n = Return large
    /\ forall z,
         (int_lt z small = true -> z < n)
         /\ (int_gt z target = true -> n < z)
         /\ (int_gt z large = true -> int_gt z target = true)
         /\ (int_lt z small = true -> int_gt z target = false).
Proof.
  intros Hn.
  destruct (thresholds_ordered n has_been_cut Hn)
    as (target & small & large & Et & Esm & Elg & Hord).
  exists target, small, large. repeat (split; [assumption |]).
  intros z.
  assert (Hsmall : int_lt z small = true -> z < n).
  { intros Hz. destruct (Z.lt_ge_cases z n) as [| Hge]; [assumption |].
    rewrite (small_below _ _ _ _ Hord _ Hge) in Hz. discriminate. }
  split; [exact Hsmall |]. split; [| split].
  - intros Hz. destruct (Z.lt_ge_cases n z) as [| Hle]; [assumption |].
    rewrite (target_above _ _ _ _ Hord _ Hle) in Hz. discriminate.
  - apply (large_above_target _ _ _ _ Hord).
  - intros Hz. apply (target_above _ _ _ _ Hord). specialize (Hsmall Hz). lia.
Qed.

Lemma thresholds_are_ordered_witness :
  exists target small large,
    target_size 1000 true = Return target
    /\ stop_size_sm 1000 = Return small
    /\ stop_size_lg 1000 = Return large
    /\ forall z,
         (int_lt z small = true -> z < 1000)
         /\ (int_gt z target = true -> 1000 < z)
         /\ (int_gt z large = true -> int_gt z target = true)
         /\ (int_lt z small = true -> int_gt z target = false).
Proof.
  apply (thresholds_are_ordered 1000 true).
  unfold in_float_range. lia.
Defined.

(** The target of a file that has been cut is not above the target of one
    that has not. *)
Lemma cut_target_is_lower (n : Z) (t_cut t_uncut : float) :
  in_float_range n ->
  target_size n true = Return t_cut -> target_size n false = Return t_uncut ->
  forall z, int_gt z t_uncut = true -> int_gt z t_cut = true.
Proof.
  intros Hn E1 E2 z. unfold in_float_range in Hn.
  destruct (int_mul_view n 4818851601286431 (-52)) as (f1 & V1 & R1 & C1 & B1);
    [assumption | cbn; lia | lia |].
  destruct (int_mul_view n 4953959590107546 (-52)) as (f2 & V2 & R2 & C2 & B2);
    [assumption | cbn; lia | lia |].
  unfold target_size, lit_1_07 in E1. rewrite R1 in E1. injection E1 as <-.
  unfold target_size, lit_1_1 in E2. rewrite R2 in E2. injection E2 as <-.
  unfold int_gt. rewrite (C1 z), (C2 z).
  change (52 - -52) with 104.
  assert (V1 <= V2) by lia.
  destruct (Z.compare_spec (z * 2 ^ 104) V2); try discriminate.
  destruct (Z.compare_spec (z * 2 ^ 104) V1); try reflexivity; lia.
Qed.

Lemma walk_lower_target (t1 t2 small large : float) (cutoff : option datetime)
    (revisions : list FileMetadata) (r : FileMetadata) :
  (forall z, int_gt z t2 = true -> int_gt z t1 = true) ->
  StronglySorted not_older revisions ->
  walk_revisions t2 small large cutoff revisions = Return (Some r) ->
  exists r',
    walk_revisions t1 small large cutoff revisions = Return (Some r')
    /\ not_older r' r.
Proof.
  intros Hle Hs. induction Hs as [| x older Hs IH Hx];
    cbn [walk_revisions]; [discriminate |].
  destruct (predates cutoff x) as [[|] |]; cbn [obind]; try discriminate.
  destruct (bytes_to_human_str (size x)); cbn [obind]; [| discriminate].
  destruct (int_gt (size x) large); [discriminate |].
  destruct (int_gt (size x) t2) eqn:E2.
  - intros [= <-]. rewrite (Hle _ E2). exists x. split; [reflexivity |].
    unfold not_older. lia.
  - destruct (int_gt (size x) t1).
    + destruct (int_lt (size x) small); [discriminate |].
      intros Hw. exists x. split; [reflexivity |].
      apply walk_some in Hw. destruct Hw as (Hin & _).
      exact (proj1 (Forall_forall _ _) Hx r Hin).
    + destruct (int_lt (size x) small); [discriminate | exact IH].
Qed.

(** X7. Marking a file as cut never loses a match: when the selector
    returns a revision for a file that has not been cut, it returns one for
    the same history with the flag set, and that one is not older. *)
Theorem cut_flag_keeps_matches
    (entries : list FileMetadata) (cutoff : option datetime) (r : FileMetadata) :
  sizes_in_range entries ->
  select_revision entries false cutoff = Return (Some r) ->
  exists r',
    select_revision entries true cutoff = Return (Some r')
    /\ not_older r' r.
Proof.
  intros Hrange Hsel.
  destruct (sorted_newest_first entries) as [| latest older] eqn:Es.
  { unfold select_revision in Hsel. rewrite Es in Hsel. discriminate. }
  assert (Hlatest : in_float_range (size latest)).
  { apply (proj1 (Forall_forall _ _) Hrange).
    apply (Permutation_in _ (sorted_newest_first_perm entries)).
    rewrite Es. left. reflexivity. }
  destruct (thresholds_ordered (size latest) false Hlatest)
    as (t2 & small & large & Et2 & Esm & Elg & _).
  destruct (thresholds_ordered (size latest) true Hlatest)
    as (t1 & small' & large' & Et1 & Esm' & Elg' & _).
  rewrite (select_revision_walk _ latest older _ _ t2 small large) in Hsel
    by assumption.
  rewrite (select_revision_walk _ latest older _ _ t1 small large)
    by assumption.
  apply (walk_lower_target t1 t2); [| | exact Hsel].
  - apply (cut_target_is_lower (size latest)); assumption.
  - pose proof (sorted_newest_first_sorted entries) as Hs. rewrite Es in Hs.
    inversion Hs; assumption.
Qed.

Lemma cut_flag_keeps_matches_witness :
  exists r',
    select_revision [revision 3 1000; revision 2 1080; revision 1 1150] true None
    = Return (Some r')
    /\ not_older r' (revision 1 1150).
Proof.
  apply (cut_flag_keeps_matches
           [revision 3 1000; revision 2 1080; revision 1 1150] None).
  - repeat constructor; unfold in_float_range; cbn [size revision]; lia.
  - vm_compute. reflexivity.
Defined.

(** X19. A cutoff that carries a UTC offset cannot be compared with the
    naive times of the remote service: on every history of two revisions
    or more whose newest size is in range, the selector raises
    [TypeError] at the first revision after the newest, whatever the
    times and the sizes of the revisions are. *)
Theorem aware_cutoff_cannot_be_compared
    (entries : list FileMetadata) (has_been_cut : bool) (t utcoffset : Z) :
  (2 <= List.length entries)%nat ->
  sizes_in_range entries ->
  select_revision entries has_been_cut (Some (Aware t utcoffset))
  = Raise TypeError.
Proof.
  intros Hlen Hrange.
  pose proof (sorted_newest_first_perm entries) as Hperm.
  pose proof (Permutation_length Hperm) as Hl.
  destruct (sorted_newest_first entries) as [| latest [| second older]] eqn:Es;
    cbn [List.length] in Hl; try lia.
  assert (Hlatest : in_float_range (size latest)).
  { apply (proj1 (Forall_forall _ _) Hrange).
    apply (Permutation_in _ Hperm). left. reflexivity. }
  destruct (thresholds_ordered (size latest) has_been_cut Hlatest)
    as (target & small & large & Et & Esm & Elg & _).
  rewrite (select_revision_walk _ latest (second :: older) _ _ target small large)
    by assumption.
  reflexivity.
Qed.

Lemma aware_cutoff_cannot_be_compared_witness :
  select_revision [revision 1 1200; revision 2 1000] false (Some (Aware 2 0))
  = Raise TypeError.
Proof.
  apply aware_cutoff_cannot_be_compared.
  - cbn. lia.
  - repeat constructor; unfold in_float_range; cbn [size revision]; lia.
Defined.

End SelectorExtras.

(** ** Extensions and companion files *)

Section PathExtras.

Import PyStr.

Lemma string_app_assoc (a b c : string) : (a ++ b) ++ c = a ++ (b ++ c).
Proof.
  induction a as [| x a IH]; cbn [String.append]; [| rewrite IH]; reflexivity.
Qed.

Lemma dir_and_base_no_sep (b : string) :
  has_char "/" b = false -> dir_and_base b = (EmptyString, b).
Proof.
  induction b as [| c b IH]; cbn [has_char dir_and_base]; [reflexivity |].
  rewrite orb_false_iff. intros [Hc Hb]. rewrite (IH Hb).
  unfold is_sep. rewrite Hc. reflexivity.
Qed.

Lemma dir_and_base_app (a b : string) :
  has_char "/" b = false ->
  dir_and_base (a ++ b) = (fst (dir_and_base a), snd (dir_and_base a) ++ b).
Proof.
  intros Hb. induction a as [| c a IH]; cbn [String.append].
  - rewrite dir_and_base_no_sep by assumption. reflexivity.
  - cbn [dir_and_base]. rewrite IH.
    destruct (dir_and_base a) as [d base]. cbn [fst snd].
    destruct d; [destruct (is_sep c) |]; reflexivity.
Qed.

Lemma dir_and_base_join (p : string) :
  fst (dir_and_base p) ++ snd (dir_and_base p) = p.
Proof.
  induction p as [| c p IH]; cbn [dir_and_base]; [reflexivity |].
  destruct (dir_and_base p) as [d base]. cbn [fst snd] in IH.
  destruct d as [| c' d].
  - cbn [String.append] in IH. subst p.
    destruct (is_sep c); reflexivity.
  - cbn [fst snd String.append] in *. rewrite IH. reflexivity.
Qed.

Lemma leading_dots_join (s : string) :
  fst (leading_dots s) ++ snd (leading_dots s) = s.
Proof.
  induction s as [| c s IH]; cbn [leading_dots]; [reflexivity |].
  destruct (is_dot c); [| reflexivity].
  destruct (leading_dots s) as [d r]. cbn [fst snd String.append] in *.
  rewrite IH. reflexivity.
Qed.

Lemma leading_dots_app (s t : string) :
  only_dots s = false ->
  leading_dots (s ++ t) = (fst (leading_dots s), snd (leading_dots s) ++ t).
Proof.
  induction s as [| c s IH]; cbn [only_dots]; [discriminate |].
  cbn [String.append leading_dots].
  destruct (is_dot c); cbn [andb]; [| reflexivity].
  intros Hs. rewrite (IH Hs).
  destruct (leading_dots s) as [d r]. reflexivity.
Qed.

Lemma leading_dots_no_dot (s : string) :
  has_char "." s = false -> leading_dots s = (EmptyString, s).
Proof.
  destruct s as [| c s]; cbn [has_char leading_dots]; [reflexivity |].
  rewrite orb_false_iff. intros [Hc _]. unfold is_dot. rewrite Hc. reflexivity.
Qed.

Lemma leading_dots_only_dots (s t : string) :
  only_dots s = true -> has_char "." t = false ->
  leading_dots (s ++ String "." t) = (s ++ ".", t).
Proof.
  intros Hs Ht. induction s as [| c s IH]; cbn [String.append leading_dots].
  - cbn. rewrite leading_dots_no_dot by assumption. reflexivity.
  - cbn [only_dots] in Hs. apply andb_prop in Hs. destruct Hs as [Hc Hs].
    rewrite Hc, (IH Hs). reflexivity.
Qed.

Lemma before_last_dot_no_dot (s : string) :
  has_char "." s = false -> before_last_dot s = None.
Proof.
  induction s as [| c s IH]; cbn [has_char before_last_dot]; [reflexivity |].
  rewrite orb_false_iff. intros [Hc Hs]. rewrite (IH Hs).
  unfold is_dot. rewrite Hc. reflexivity.
Qed.

Lemma before_last_dot_app (name ext : string) :
  has_char "." ext = false ->
  before_last_dot (name ++ String "." ext) = Some name.
Proof.
  intros He. induction name as [| c name IH]; cbn [String.append before_last_dot].
  - rewrite before_last_dot_no_dot by assumption. reflexivity.
  - rewrite IH. reflexivity.
Qed.

(** The root of [stem.ext]: [stem], unless the base name of [stem] has
    nothing but dots. *)
Lemma splitext_root_stem (stem ext : string) :
  has_char "." ext = false -> has_char "/" ext = false ->
  splitext_root (stem ++ "." ++ ext)
  = if only_dots (basename stem) then stem ++ "." ++ ext else stem.
Proof.
  intros Hdot Hsep. unfold splitext_root, basename.
  change ("." ++ ext) with (String "." ext).
  rewrite dir_and_base_app by (cbn [has_char]; rewrite Hsep; reflexivity).
  pose proof (dir_and_base_join stem) as Hjoin.
  destruct (dir_and_base stem) as [d base]. cbn [fst snd] in *.
  destruct (only_dots base) eqn:Eo.
  - rewrite leading_dots_only_dots by assumption.
    rewrite before_last_dot_no_dot by assumption. reflexivity.
  - rewrite leading_dots_app by assumption.
    pose proof (leading_dots_join base) as Hl.
    destruct (leading_dots base) as [dots name]. cbn [fst snd] in *.
    rewrite before_last_dot_app by assumption.
    rewrite Hl. exact Hjoin.
Qed.

(** X8. Replacing the extension of [stem.ext], where [ext] has no dot and
    no separator, gives [stem.new]; but when the base name of [stem] is
    empty or made of dots only, as for a file named [.mkv], [stem.ext] has
    no extension and [.new] is added to it. *)
Theorem replace_extension_swaps_suffix (stem ext new : string) :
  has_char "." ext = false -> has_char "/" ext = false ->
  replace_extension (stem ++ "." ++ ext) new
  = if only_dots (basename stem) then stem ++ "." ++ ext ++ "." ++ new
    else stem ++ "." ++ new.
Proof.
  intros Hdot Hsep. unfold replace_extension.
  rewrite splitext_root_stem by assumption.
  destruct (only_dots (basename stem)); [| reflexivity].
  rewrite !string_app_assoc. reflexivity.
Qed.

Lemma replace_extension_swaps_suffix_witness :
  replace_extension ("/Media/tv.old/a.part1" ++ "." ++ "mkv") "bak.edl"
  = "/Media/tv.old/a.part1" ++ "." ++ "bak.edl".
Proof.
  apply (replace_extension_swaps_suffix "/Media/tv.old/a.part1" "mkv" "bak.edl");
    reflexivity.
Defined.

Lemma final_extension_split (p e : string) :
  final_extension p = Some e -> exists stem, p = stem ++ "." ++ e.
Proof.
  revert e. induction p as [| c p IH]; cbn [final_extension]; [discriminate |].
  intros e. destruct (final_extension p) as [x |].
  - intros [= ->]. destruct (IH e eq_refl) as (stem & ->).
    exists (String c stem). reflexivity.
  - unfold is_dot. destruct (Ascii.eqb_spec c "."); [| discriminate].
    intros [= ->]. subst c. exists EmptyString. reflexivity.
Qed.

Lemma only_dots_starts_with_dot (b rest : string) :
  only_dots b = true -> startswith (b ++ String "." rest) "." = true.
Proof.
  unfold startswith. destruct b as [| c b]; cbn [only_dots String.append].
  - intros _. cbn. destruct rest; reflexivity.
  - intros H. apply andb_prop in H. destruct H as [Hc _].
    unfold is_dot in Hc. apply Ascii.eqb_eq in Hc. subst c.
    cbn. destruct (b ++ String "." rest); reflexivity.
Qed.

(** X9. A path with a recognized extension whose base name does not begin
    with a dot is [stem.e] for a recognized [e], and its two companion
    paths are [stem.edl] and [stem.bak.edl]. *)
Theorem companions_of_a_candidate (x : string) :
  recognized_extension x -> startswith (basename x) "." = false ->
  exists stem e,
    In e VIDEO_EXTENSIONS
    /\ x = stem ++ "." ++ e
    /\ replace_extension x "edl" = stem ++ ".edl"
    /\ replace_extension x "bak.edl" = stem ++ ".bak.edl".
Proof.
  intros (e & Hin & He) Hvisible.
  destruct (final_extension_split x e He) as (stem & ->).
  assert (Hchars : has_char "." e = false /\ has_char "/" e = false).
  { cbn in Hin. intuition (subst; split; reflexivity). }
  destruct Hchars as [Hdot Hsep].
  assert (Ho : only_dots (basename stem) = false).
  { destruct (only_dots (basename stem)) eqn:Eo; [| reflexivity].
    unfold basename in Hvisible, Eo.
    change ("." ++ e) with (String "." e) in Hvisible.
    rewrite dir_and_base_app in Hvisible
      by (cbn [has_char]; rewrite Hsep; reflexivity).
    cbn [snd] in Hvisible.
    rewrite only_dots_starts_with_dot in Hvisible by assumption.
    discriminate. }
  exists stem, e. split; [exact Hin |]. split; [reflexivity |].
  unfold replace_extension.
  rewrite splitext_root_stem, Ho by assumption.
  split; reflexivity.
Qed.

Lemma companions_of_a_candidate_witness :
  exists stem e,
    In e VIDEO_EXTENSIONS
    /\ "/videos/show.s01.ts" = stem ++ "." ++ e
    /\ replace_extension "/videos/show.s01.ts" "edl" = stem ++ ".edl"
    /\ replace_extension "/videos/show.s01.ts" "bak.edl" = stem ++ ".bak.edl".
Proof.
  apply (companions_of_a_candidate "/videos/show.s01.ts").
  - exists "ts". split; [right; left; reflexivity | reflexivity].
  - reflexivity.
Defined.

Lemma endswith_refl (s : string) : endswith s s = true.
Proof. destruct s; cbn [endswith]; rewrite String.eqb_refl; reflexivity. Qed.

Lemma endswith_app (a b s : string) :
  endswith b s = true -> endswith (a ++ b) s = true.
Proof.
  intros H. induction a as [| c a IH]; cbn [String.append]; [exact H |].
  cbn [endswith]. rewrite IH. apply orb_true_r.
Qed.

Lemma replace_extension_not_empty (path new_extension : string) :
  replace_extension path new_extension <> "".
Proof.
  unfold replace_extension.
  destruct (splitext_root path); cbn; discriminate.
Qed.

(** X10. The companion path [edl_for_video] chooses always ends with
    [.edl] and is never empty, so the test [if edl_filepath and ...] of the
    caller only tests that it is a file; it exists on disk as soon as one
    of the two forms does. *)
Theorem edl_for_video_choice (host : Host) (filepath : string) :
  endswith (edl_for_video host filepath) ".edl" = true
  /\ exists_ host (edl_for_video host filepath)
     = exists_ host (replace_extension filepath "edl")
       || exists_ host (replace_extension filepath "bak.edl")
  /\ read_has_been_cut host filepath
     = if isfile host (edl_for_video host filepath)
       then obind (read_text host (edl_for_video host filepath))
              (fun text => Return (contains "## cut complete" text))
       else Return false.
Proof.
  split; [| split].
  - unfold edl_for_video.
    destruct (exists_ host (replace_extension filepath "edl"));
      [| destruct (exists_ host (replace_extension filepath "bak.edl"))];
      unfold replace_extension; apply endswith_app; reflexivity.
  - unfold edl_for_video.
    destruct (exists_ host (replace_extension filepath "edl")) eqn:E1;
      [rewrite E1; reflexivity |].
    destruct (exists_ host (replace_extension filepath "bak.edl")) eqn:E2;
      [rewrite E2 | rewrite E1]; reflexivity.
  - unfold read_has_been_cut.
    assert (Hne : (edl_for_video host filepath =? "")%string = false).
    { apply String.eqb_neq. unfold edl_for_video.
      destruct (exists_ host (replace_extension filepath "edl"));
        [| destruct (exists_ host (replace_extension filepath "bak.edl"))];
        apply replace_extension_not_empty. }
    rewrite Hne. reflexivity.
Qed.

(** X11. A local path in which the media root does not occur is used as
    the remote path unchanged. *)
Theorem path_outside_media_root_is_unchanged (media_base path : string) :
  media_base <> "" -> contains media_base path = false ->
  remote_path media_base path = path.
Proof.
  intros Hne Habsent. unfold remote_path.
  rewrite replace_nonempty by assumption.
  apply replace_from_absent; assumption.
Qed.

Lemma path_outside_media_root_is_unchanged_witness :
  remote_path "/srv/tv" "/home/me/a.mkv" = "/home/me/a.mkv".
Proof.
  apply path_outside_media_root_is_unchanged; [discriminate | reflexivity].
Defined.

(** X20. For a path that begins with the media root, the leading
    occurrence becomes [/Media] and the remainder is rewritten by the same
    replacement; when the media root does not occur in the remainder, the
    remainder is unchanged and the remote path is the substitution of the
    prefix. *)
Theorem remote_path_replaces_media_root (media_base rest : string) :
  media_base <> "" ->
  remote_path media_base (media_base ++ rest)
  = "/Media" ++ remote_path media_base rest
  /\ (contains media_base rest = false ->
      remote_path media_base (media_base ++ rest) = "/Media" ++ rest).
Proof.
  intros Hne. unfold remote_path.
  rewrite !replace_nonempty by assumption.
  rewrite replace_from_leading by assumption.
  split; [reflexivity |].
  intros Habsent. rewrite replace_from_absent by assumption. reflexivity.
Qed.

Lemma remote_path_replaces_media_root_witness :
  remote_path "/srv/tv" ("/srv/tv" ++ "/shows/a.mkv") = "/Media" ++ "/shows/a.mkv".
Proof.
  apply (remote_path_replaces_media_root "/srv/tv" "/shows/a.mkv").
  - discriminate.
  - reflexivity.
Defined.

End PathExtras.

(** ** Sizes for the log *)

Section SizeExtras.

Import PyFloat FloatFacts PyStr.

(** X12. For a size in range [bytes_to_human_str] returns: the decimal
    digits of a size up to 1024, and otherwise a number with a unit, which
    is [M] for every size up to a gibibyte, sizes between a kibibyte and a
    mebibyte included, and [G] above. *)
Theorem bytes_to_human_str_units (n : Z) :
  in_float_range n ->
  exists s,
    bytes_to_human_str n = Return s
    /\ if n <=? KILOBYTES_MULT then s = str_of_int n
       else if n <=? GIGABYTES_MULT then endswith s "M" = true
       else endswith s "G" = true.
Proof.
  intros Hn. unfold in_float_range in Hn. unfold bytes_to_human_str.
  assert (Hconv : KILOBYTES_MULT < n ->
                  forall k suffix, 0 < k < 2 ^ 1021 ->
                    exists s,
                      (x <- of_int n ;; q <- div_int x k ;;
                       Return (format_2f q ++ suffix))%outcome = Return s
                      /\ endswith s suffix = true).
  { intros Hk k suffix Hkr. unfold KILOBYTES_MULT in Hk.
    destruct (of_int_pos n) as (m & e & E & _); [lia |].
    rewrite E. cbn [obind].
    destruct (div_int_returns (S754_finite false m e) k Hkr) as (q & Eq).
    rewrite Eq. cbn [obind]. eexists. split; [reflexivity |].
    apply endswith_app, endswith_refl. }
  assert (HG : 0 < GIGABYTES_MULT < 2 ^ 1021) by (cbv; split; reflexivity).
  assert (HM : 0 < MEGABYTES_MULT < 2 ^ 1021) by (cbv; split; reflexivity).
  assert (HK : 0 < KILOBYTES_MULT < 2 ^ 1021) by (cbv; split; reflexivity).
  assert (Horder : KILOBYTES_MULT < MEGABYTES_MULT < GIGABYTES_MULT)
    by (cbv; split; reflexivity).
  destruct (Z.gtb_spec n GIGABYTES_MULT) as [Hg | Hg].
  { destruct (Hconv ltac:(lia) GIGABYTES_MULT "G" HG) as (s & Es & Hs).
    exists s. split; [exact Es |].
    destruct (Z.leb_spec n KILOBYTES_MULT); [lia |].
    destruct (Z.leb_spec n GIGABYTES_MULT); [lia | exact Hs]. }
  destruct (Z.gtb_spec n MEGABYTES_MULT) as [Hm | Hm].
  { destruct (Hconv ltac:(lia) MEGABYTES_MULT "M" HM) as (s & Es & Hs).
    exists s. split; [exact Es |].
    destruct (Z.leb_spec n KILOBYTES_MULT); [lia |].
    destruct (Z.leb_spec n GIGABYTES_MULT); [exact Hs | lia]. }
  destruct (Z.gtb_spec n KILOBYTES_MULT) as [Hk | Hk].
  { destruct (Hconv Hk KILOBYTES_MULT "M" HK) as (s & Es & Hs).
    exists s. split; [exact Es |].
    destruct (Z.leb_spec n KILOBYTES_MULT); [lia |].
    destruct (Z.leb_spec n GIGABYTES_MULT); [exact Hs | lia]. }
  eexists. split; [reflexivity |].
  destruct (Z.leb_spec n KILOBYTES_MULT); [reflexivity | lia].
Qed.

Lemma bytes_to_human_str_units_witness :
  exists s,
    bytes_to_human_str 2048 = Return s
    /\ endswith s "M" = true.
Proof.
  apply (bytes_to_human_str_units 2048).
  unfold in_float_range. lia.
Defined.

End SizeExtras.

(** ** The order of the walk *)

Section WalkOrderExtras.

Local Open Scope list_scope.

Lemma string_compare_not_lt_trans (x y z : string) :
  String.compare x y <> Lt -> String.compare y z <> Lt ->
  String.compare x z <> Lt.
Proof.
  revert y z. induction x as [| a x IH]; intros [| b y] [| c z];
    cbn [String.compare]; try congruence.
  unfold Ascii.compare.
  destruct (N.compare_spec (N_of_ascii a) (N_of_ascii b)) as [Hab | Hab | Hab];
    destruct (N.compare_spec (N_of_ascii b) (N_of_ascii c)) as [Hbc | Hbc | Hbc];
    destruct (N.compare_spec (N_of_ascii a) (N_of_ascii c)) as [Hac | Hac | Hac];
    try congruence; try lia.
  apply IH.
Qed.

Lemma ltb_false_iff (x y : string) :
  String.ltb x y = false <-> String.compare x y <> Lt.
Proof.
  unfold String.ltb. destruct (String.compare x y); split; congruence.
Qed.

(** X13. The order in which [os.walk] lists the files of a directory does
    not matter: the videos yielded for the directory, and their order, are
    the same for every rearrangement of the listing. *)
Theorem directory_listing_order_is_irrelevant
    (host : Host) (root : string) (files files' : list string) :
  Permutation files files' ->
  walked_videos host root files = walked_videos host root files'.
Proof.
  intros Hp. unfold walked_videos. do 2 f_equal.
  apply stable_sort_perm_invariant; [| | | exact Hp].
  - unfold may_precede. intros x y z. rewrite !ltb_false_iff. intros H1 H2.
    exact (string_compare_not_lt_trans z y x H2 H1).
  - intros x y. unfold String.ltb. rewrite (String.compare_antisym y x).
    destruct (String.compare x y); cbn; intros H; try discriminate H; reflexivity.
  - intros x y _ _. unfold may_precede. rewrite !ltb_false_iff.
    intros H1 H2. apply String.compare_eq_iff.
    rewrite (String.compare_antisym y x) in H1.
    destruct (String.compare x y); cbn in *; congruence.
Qed.

Lemma directory_listing_order_is_irrelevant_witness :
  walked_videos example_host "/videos" ["b.mkv"; "notes.txt"; "a.ts"]
  = walked_videos example_host "/videos" ["a.ts"; "b.mkv"; "notes.txt"].
Proof.
  apply directory_listing_order_is_irrelevant.
  apply example_permutation.
Defined.

End WalkOrderExtras.

(** ** The command line *)

Section CommandLineExtras.

Local Open Scope list_scope.

Lemma one_of_In (opt : string) (names : list string) :
  one_of opt names = true -> In opt names.
Proof.
  unfold one_of. rewrite existsb_exists. intros (x & Hin & Hx).
  apply String.eqb_eq in Hx. subst x. exact Hin.
Qed.

Lemma last_cons {A} (l : list A) (a d : A) : last (a :: l) d = last l a.
Proof.
  revert a d. induction l as [| b l IH]; intros a d; [reflexivity |].
  change (last (a :: b :: l) d) with (last (b :: l) d).
  rewrite (IH b d), (IH b a). reflexivity.
Qed.

Lemma read_options_spec (host : Host) (opts : list (string * string)) :
  forall o0 o,
    read_options host opts o0 = Return (Some o) ->
    existsb (fun oa => one_of (fst oa) ["-h"; "--help"]) opts = false
    /\ dry_run o
       = dry_run o0 || existsb (fun oa => one_of (fst oa) ["-n"; "--dry-run"]) opts
    /\ media_base o
       = last (map (fun arg =>
                      Some (if PyStr.endswith arg "/" then PyStr.drop_last arg
                            else arg))
                 (option_args ["-d"; "--dir"] opts))
           (media_base o0)
    /\ (option_args ["--lt"] opts = [] ->
        no_older_than_time o = no_older_than_time o0).
Proof.
  induction opts as [| [opt arg] opts IH]; intros o0 o; cbn [read_options].
  - intros [= <-]. cbn. rewrite orb_false_r. auto.
  - unfold option_args in *. cbn [existsb filter fst].
    destruct (one_of opt ["-h"; "--help"]) eqn:Eh; [discriminate |].
    cbn [orb].
    destruct (opt =? "--verbose")%string eqn:Ev.
    { apply String.eqb_eq in Ev. subst opt. cbn [one_of existsb String.eqb Ascii.eqb Bool.eqb orb andb].
      apply IH. }
    destruct (one_of opt ["-n"; "--dry-run"]) eqn:En.
    { apply one_of_In in En.
      assert (Hd : one_of opt ["-d"; "--dir"] = false /\ one_of opt ["--lt"] = false).
      { cbn in En. intuition (subst; split; reflexivity). }
      destruct Hd as [-> ->]. intros H. apply IH in H. cbn in H.
      destruct H as (H1 & H2 & H3 & H4).
      rewrite orb_true_r. auto. }
    destruct (one_of opt ["-d"; "--dir"]) eqn:Ed.
    { apply one_of_In in Ed.
      assert (Hl : one_of opt ["--lt"] = false).
      { cbn in Ed. intuition (subst; reflexivity). }
      rewrite Hl. intros H. apply IH in H. cbn [dry_run media_base no_older_than_time] in H.
      destruct H as (H1 & H2 & H3 & H4).
      split; [exact H1 |]. split; [exact H2 |]. split; [| exact H4].
      rewrite H3. cbn [map snd]. symmetry. apply last_cons. }
    destruct (one_of opt ["--lt"]) eqn:El.
    { destruct (fromisoformat host arg) as [t |]; cbn [obind]; [| discriminate].
      intros H. apply IH in H. cbn [dry_run media_base no_older_than_time] in H.
      destruct H as (H1 & H2 & H3 & H4).
      split; [exact H1 |]. split; [exact H2 |]. split; [exact H3 |].
      cbn [map]. discriminate. }
    apply IH.
Qed.

(** X14. When the options are read without an error, no help option was
    given; the run is a dry run exactly when [-n] or [--dry-run] was
    given; and the media root is the argument of the last [-d] or [--dir],
    less one trailing slash, or is missing when there was none. Options
    that [getopt] accepts and the loop does not name, as [-v] and [-t],
    change nothing. *)
Theorem options_read (host : Host) (opts : list (string * string)) (o : Options) :
  read_options host opts initial_options = Return (Some o) ->
  existsb (fun oa => one_of (fst oa) ["-h"; "--help"]) opts = false
  /\ dry_run o = existsb (fun oa => one_of (fst oa) ["-n"; "--dry-run"]) opts
  /\ media_base o
     = last (map (fun arg =>
                    Some (if PyStr.endswith arg "/" then PyStr.drop_last arg
                          else arg))
               (option_args ["-d"; "--dir"] opts))
         None
  /\ (option_args ["--lt"] opts = [] -> no_older_than_time o = None).
Proof.
  intros H. apply read_options_spec in H. exact H.
Qed.

Lemma options_read_witness :
  exists o,
    read_options example_host
      [("-d", "/a/"); ("-v", ""); ("--dry-run", ""); ("--dir", "/videos//");
       ("-t", "x")]
      initial_options
    = Return (Some o)
    /\ dry_run o = true
    /\ media_base o = Some "/videos/"
    /\ no_older_than_time o = None.
Proof.
  eexists. split; [reflexivity |].
  destruct (options_read example_host
              [("-d", "/a/"); ("-v", ""); ("--dry-run", ""); ("--dir", "/videos//");
               ("-t", "x")]
              _ eq_refl) as (_ & H2 & H3 & H4).
  split; [exact H2 |]. split; [exact H3 |]. exact (H4 eq_refl).
Defined.

(** X15. A run either reaches the loop over the files, with complete
    options, or makes no remote call at all and does not return 0: usage
    errors, a request for help, a cutoff that does not parse and missing
    configuration are all settled before the remote service is used. *)
Theorem no_call_before_configuration {St} (host : Host) (dbx : Dropbox St)
    (parsed : option (list (string * string) * list string)) (w : World St) :
  (exists opts args o base,
     parsed = Some (opts, args)
     /\ read_options host opts initial_options = Return (Some o)
     /\ configured host args o base)
  \/ (fst (comcut_restore_cli host dbx parsed w) = w
      /\ snd (comcut_restore_cli host dbx parsed w) <> Return 0).
Proof.
  destruct parsed as [[opts args] |]; [| right; split; [reflexivity | discriminate]].
  unfold comcut_restore_cli, bind, lift.
  destruct (read_options host opts initial_options) as [[o |] | e] eqn:Eo;
    try (right; split; [reflexivity | discriminate]).
  destruct args as [| a args];
    [right; split; [reflexivity | discriminate] |].
  cbn [List.length Nat.eqb].
  destruct (falsy (media_base o)) eqn:Eb;
    [right; split; [reflexivity | discriminate] |].
  destruct (falsy (getenv host "DROPBOX_ACCESS_TOKEN")) eqn:Et;
    [right; split; [reflexivity | discriminate] |].
  left. destruct (media_base o) as [base |] eqn:Em; [| discriminate].
  exists opts, (a :: args), o, base.
  split; [reflexivity |]. split; [exact Eo |].
  repeat split; try assumption; try discriminate.
  cbn [falsy] in Eb. apply String.eqb_neq. exact Eb.
Qed.

End CommandLineExtras.

(** ** Failures in the loop *)

Section LoopExtras.

Local Open Scope list_scope.

(** X16. Only [ApiError] is caught. Any other exception of the restore
    call leaves the block at once, after that one call; any other
    exception of the first deletion leaves the block too, through both
    handlers, and the second deletion is not attempted. *)
Theorem only_api_errors_are_caught {St} (dbx : Dropbox St) (path : string)
    (r : FileMetadata) (w : World St) (e : exn) :
  (forall detail, e <> ApiError detail) ->
  (snd (files_restore dbx path (rev r) (remote w)) = Raise e ->
   restore_and_clean dbx path r w
   = ({| remote := fst (files_restore dbx path (rev r) (remote w));
         calls := calls w ++ [Restore path (rev r)] |},
      Raise e))
  /\ (snd (files_restore dbx path (rev r) (remote w)) = Return tt ->
      snd (files_delete_v2 dbx (replace_extension path "edl")
             (fst (files_restore dbx path (rev r) (remote w))))
      = Raise e ->
      restore_and_clean dbx path r w
      = ({| remote := fst (files_delete_v2 dbx (replace_extension path "edl")
                             (fst (files_restore dbx path (rev r) (remote w))));
            calls := calls w ++ [Restore path (rev r);
                                 DeleteV2 (replace_extension path "edl")] |},
         Raise e)).
Proof.
  intros Hother. split.
  - intros Hr. unfold restore_and_clean, try_except_ApiError at 1.
    unfold bind at 1. rewrite remote_call_eq, Hr.
    destruct e; try reflexivity. exfalso. exact (Hother _ eq_refl).
  - intros Hr Hd. unfold restore_and_clean, try_except_ApiError at 1.
    unfold bind at 1. rewrite remote_call_eq, Hr.
    unfold bind at 1. unfold try_except_ApiError at 1.
    rewrite remote_call_eq. cbn [remote calls]. rewrite Hd.
    rewrite <- app_assoc. cbn [app].
    destruct e; try reflexivity. exfalso. exact (Hother _ eq_refl).
Qed.

Lemma only_api_errors_are_caught_witness :
  restore_and_clean unreachable_dbx "/Media/a.ts" (revision 1 1200)
    {| remote := tt; calls := [] |}
  = ({| remote := tt; calls := [Restore "/Media/a.ts" "1"] |},
     Raise (OtherError "ConnectionError")).
Proof.
  apply (only_api_errors_are_caught unreachable_dbx "/Media/a.ts"
           (revision 1 1200) {| remote := tt; calls := [] |}
           (OtherError "ConnectionError")).
  - discriminate.
  - reflexivity.
Defined.

Lemma for_each_app {St} (xs ys : list string) (body : string -> M St unit)
    (w : World St) :
  for_each (xs ++ ys) body w
  = match for_each xs body w with
    | (w1, Return _) => for_each ys body w1
    | (w1, Raise e) => (w1, Raise e)
    end.
Proof.
  revert w. induction xs as [| x xs IH]; intros w; [reflexivity |].
  cbn [app for_each]. unfold bind.
  destruct (body x w) as [w1 [[] | e]]; [apply IH | reflexivity].
Qed.

(** X17. A failure of the selection is not caught and ends the run: when
    the listing of a candidate's revisions raises, an [ApiError] for a path
    the service does not know included, or answers an empty list, the run
    ends with that exception, or with [IndexError], right after that call;
    the candidates after it are not looked at. *)
Theorem selection_failure_ends_the_run {St} (host : Host) (dbx : Dropbox St)
    (opts : list (string * string)) (args : list string) (o : Options)
    (base : string) (w w1 : World St) (pre post : list string) (f : string)
    (b : bool) (e : exn) :
  read_options host opts initial_options = Return (Some o) ->
  configured host args o base ->
  generate_files host args = pre ++ f :: post ->
  for_each pre (process_file host dbx (dry_run o) base (no_older_than_time o)) w
  = (w1, Return tt) ->
  read_has_been_cut host f = Return b ->
  snd (files_list_revisions dbx (remote_path base f) 30 (remote w1)) = Raise e
  \/ (snd (files_list_revisions dbx (remote_path base f) 30 (remote w1)) = Return []
      /\ e = IndexError) ->
  comcut_restore_cli host dbx (Some (opts, args)) w
  = ({| remote := fst (files_list_revisions dbx (remote_path base f) 30 (remote w1));
        calls := calls w1 ++ [ListRevisions (remote_path base f) 30] |},
     Raise e).
Proof.
  intros Hopts Hconf Hfiles Hpre Hread Hfail.
  rewrite (configured_run host dbx opts args o base w Hopts Hconf).
  unfold bind at 1. rewrite Hfiles, for_each_app, Hpre.
  cbn [for_each]. unfold bind at 1.
  assert (Hf : process_file host dbx (dry_run o) base (no_older_than_time o) f w1
               = ({| remote := fst (files_list_revisions dbx (remote_path base f) 30
                                      (remote w1));
                     calls := calls w1 ++ [ListRevisions (remote_path base f) 30] |},
                  Raise e)).
  { unfold process_file. unfold bind at 1. unfold lift at 1. rewrite Hread.
    unfold bind at 1. unfold find_precut_revision. unfold bind at 1.
    rewrite remote_call_eq.
    destruct Hfail as [-> | [-> ->]]; reflexivity. }
  rewrite Hf. reflexivity.
Qed.

Lemma selection_failure_ends_the_run_witness :
  comcut_restore_cli example_host unreachable_dbx
    (Some ([("-d", "/videos")], ["/videos"])) {| remote := tt; calls := [] |}
  = ({| remote := tt; calls := [ListRevisions "/Media/a.ts" 30] |},
     Raise (ApiError "path/not_found")).
Proof.
  apply (selection_failure_ends_the_run example_host unreachable_dbx
           [("-d", "/videos")] ["/videos"]
           {| dry_run := false; media_base := Some "/videos";
              no_older_than_time := None |}
           "/videos" {| remote := tt; calls := [] |} {| remote := tt; calls := [] |}
           [] ["/videos/b.mkv"] "/videos/a.ts" false
           (ApiError "path/not_found")).
  - reflexivity.
  - repeat split; discriminate.
  - reflexivity.
  - reflexivity.
  - reflexivity.
  - left. reflexivity.
Defined.

(** The calls of the block that restores: the restore, and then no
    deletion exactly when the restore raised; after a restore that
    answered, the deletion of the [.edl] path alone exactly when it raised
    something else than [ApiError], and both deletions otherwise. *)
Lemma restore_and_clean_calls {St} (dbx : Dropbox St) (path : string)
    (r : FileMetadata) (w : World St) :
  exists tail,
    calls (fst (restore_and_clean dbx path r w))
    = calls w ++ Restore path (rev r) :: tail
    /\ ((tail = []
         /\ exists e, snd (files_restore dbx path (rev r) (remote w)) = Raise e)
        \/ (snd (files_restore dbx path (rev r) (remote w)) = Return tt
            /\ ((tail = [DeleteV2 (replace_extension path "edl")]
                 /\ exists e,
                      snd (files_delete_v2 dbx (replace_extension path "edl")
                             (fst (files_restore dbx path (rev r) (remote w))))
                      = Raise e
                      /\ forall detail, e <> ApiError detail)
                \/ (tail = [DeleteV2 (replace_extension path "edl");
                            DeleteV2 (replace_extension path "bak.edl")]
                    /\ answer_or_ApiError
                         (snd (files_delete_v2 dbx (replace_extension path "edl")
                                 (fst (files_restore dbx path (rev r)
                                         (remote w))))))))).
Proof.
  unfold restore_and_clean, try_except_ApiError, bind, remote_call, ret.
  destruct (files_restore dbx path (rev r) (remote w)) as [s1 [[] | e1]].
  - cbn [remote calls fst snd].
    destruct (files_delete_v2 dbx (replace_extension path "edl") s1)
      as [s2 [[] | e2]].
    + cbn [remote calls fst snd].
      exists [DeleteV2 (replace_extension path "edl");
              DeleteV2 (replace_extension path "bak.edl")].
      split; [| right; split; [reflexivity | right; split; [reflexivity | exact I]]].
      destruct (files_delete_v2 dbx (replace_extension path "bak.edl") s2)
        as [s3 [[] | e3]];
        [| destruct e3]; cbn [fst calls]; rewrite <- !app_assoc; reflexivity.
    + assert (Hcases : (exists detail, e2 = ApiError detail)
                       \/ forall detail, e2 <> ApiError detail)
        by (destruct e2; try (right; discriminate); left; eauto).
      destruct Hcases as [[detail ->] | Hother].
      * cbn [remote calls fst snd].
        exists [DeleteV2 (replace_extension path "edl");
                DeleteV2 (replace_extension path "bak.edl")].
        split; [| right; split;
                  [reflexivity | right; split; [reflexivity | cbn; eauto]]].
        destruct (files_delete_v2 dbx (replace_extension path "bak.edl") s2)
          as [s3 [[] | e3]];
          [| destruct e3]; cbn [fst calls]; rewrite <- !app_assoc; reflexivity.
      * exists [DeleteV2 (replace_extension path "edl")].
        split; [| right; split;
                  [reflexivity
                  | left; split;
                    [reflexivity | exists e2; split; [reflexivity | exact Hother]]]].
        destruct e2; try (cbn [fst calls]; rewrite <- !app_assoc; reflexivity).
        exfalso. exact (Hother _ eq_refl).
  - exists []. split; [| left; split; [reflexivity | exists e1; reflexivity]].
    destruct e1; reflexivity.
Qed.

(** What the selector returns had its size converted for the log. *)
Lemma selected_size_converts (entries : list FileMetadata) (has_been_cut : bool)
    (cutoff : option datetime) (r : FileMetadata) :
  select_revision entries has_been_cut cutoff = Return (Some r) ->
  exists s, bytes_to_human_str (size r) = Return s.
Proof.
  unfold select_revision.
  destruct (sorted_newest_first entries) as [| latest older]; [discriminate |].
  destruct (bytes_to_human_str (size latest)); cbn [obind]; [| discriminate].
  destruct (target_size (size latest) has_been_cut); cbn [obind]; [| discriminate].
  destruct (stop_size_sm (size latest)); cbn [obind]; [| discriminate].
  destruct (stop_size_lg (size latest)); cbn [obind]; [| discriminate].
  intros H. apply walk_some in H. tauto.
Qed.

(** X18. The remote calls made for one file, however its processing ends.
    When the companion file cannot be read there is none. Otherwise the
    remote path is listed once, and nothing follows in a dry run, when the
    listing raises, or when the selector does not return a revision of
    that listing. In a run that is not a dry run and in which the selector
    returned a revision, one restore of that revision follows, and then:
    nothing exactly when the restore raised; the deletion of the [.edl]
    path alone exactly when the restore answered and that deletion raised
    something else than [ApiError]; and otherwise the deletions of the
    [.edl] and the [.bak.edl] paths, in this order. *)
Theorem calls_for_one_file {St} (host : Host) (dbx : Dropbox St) (dry : bool)
    (base : string) (cutoff : option datetime) (f : string) (w : World St) :
  let p := remote_path base f in
  let listing := files_list_revisions dbx p 30 (remote w) in
  exists l,
    calls (fst (process_file host dbx dry base cutoff f w)) = calls w ++ l
    /\ ((l = [] /\ exists e, read_has_been_cut host f = Raise e)
        \/ exists b,
             read_has_been_cut host f = Return b
             /\ ((l = [ListRevisions p 30]
                  /\ (dry = true
                      \/ forall entries r,
                           snd listing = Return entries ->
                           select_revision entries b cutoff <> Return (Some r)))
                 \/ exists entries r tail,
                      dry = false
                      /\ snd listing = Return entries
                      /\ select_revision entries b cutoff = Return (Some r)
                      /\ l = ListRevisions p 30 :: Restore p (rev r) :: tail
                      /\ let restored := files_restore dbx p (rev r) (fst listing) in
                         let deleted :=
                           files_delete_v2 dbx (replace_extension p "edl")
                             (fst restored) in
                         (tail = [] /\ exists e, snd restored = Raise e)
                         \/ (snd restored = Return tt
                             /\ ((tail = [DeleteV2 (replace_extension p "edl")]
                                  /\ exists e,
                                       snd deleted = Raise e
                                       /\ forall detail, e <> ApiError detail)
                                 \/ (tail = [DeleteV2 (replace_extension p "edl");
                                             DeleteV2 (replace_extension p "bak.edl")]
                                     /\ answer_or_ApiError (snd deleted)))))).
Proof.
  intros p listing. unfold process_file. unfold bind at 1. unfold lift at 1.
  destruct (read_has_been_cut host f) as [b | e0] eqn:Eb.
  2: { exists []. rewrite app_nil_r.
       split; [reflexivity | left; split; [reflexivity | exists e0; reflexivity]]. }
  unfold bind at 1. unfold find_precut_revision. unfold bind at 1.
  rewrite remote_call_eq. fold p. fold listing.
  set (w1 := {| remote := fst listing; calls := calls w ++ [ListRevisions p 30] |}).
  destruct (snd listing) as [entries | e1] eqn:El.
  2: { exists [ListRevisions p 30]. split; [reflexivity |].
       right. exists b. split; [reflexivity |]. left. split; [reflexivity |].
       right. intros entries r. discriminate. }
  unfold lift at 1.
  destruct (select_revision entries b cutoff) as [[r |] | e2] eqn:Es.
  2, 3: exists [ListRevisions p 30]; (split; [reflexivity |]);
        right; exists b; (split; [reflexivity |]); left; (split; [reflexivity |]);
        right; intros entries' r' [= <-]; rewrite Es; discriminate.
  unfold bind at 1. unfold lift at 1.
  destruct (selected_size_converts _ _ _ _ Es) as (s & ->).
  destruct dry.
  { exists [ListRevisions p 30]. split; [reflexivity |].
    right. exists b. split; [reflexivity |]. left. split; [reflexivity |].
    left. reflexivity. }
  destruct (restore_and_clean_calls dbx p r w1) as (tail & Hcalls & Htail).
  exists (ListRevisions p 30 :: Restore p (rev r) :: tail).
  split.
  - rewrite Hcalls. unfold w1. cbn [calls]. rewrite <- app_assoc. reflexivity.
  - right. exists b. split; [reflexivity |]. right. exists entries, r, tail.
    repeat (split; [reflexivity || assumption |]). exact Htail.
Qed.

End LoopExtras.
